(** * sdf_renderer.py: the gyroid-lattice renderer script of nglod

    A shallow embedding of [sdf-net/app/sdf_renderer.py]: the
    [GyroidLattice] module (its [forward] on tensors with shapes, devices
    and broadcasting) and the [__main__] script, written as a program in
    a small trace/filesystem/exception monad that follows the script line
    by line.  The network, the renderer, the cube marcher and the other
    imported libraries are opaque: their calls are recorded as events and
    their results are parameters of the environment. *)

From Stdlib Require Import String Ascii DecimalString.
From Stdlib Require Import ZArith QArith Qround Bool Lia Arith List.
Import ListNotations.

Local Close Scope Q_scope.
Local Open Scope nat_scope.
Local Open Scope list_scope.

Set Implicit Arguments.

(** ** Floating-point scalars

    The script computes on Python floats and on float32/float64 tensor
    elements.  Rounding is not modelled: scalars are an abstract carrier
    with the operations the script uses, and every statement below holds
    for any interpretation of them.  [flit q] is the float denoted by the
    decimal literal (or integer) [q]. *)

Class FloatOps (F : Type) : Type := {
  flit : Q -> F;
  fadd : F -> F -> F;
  fsub : F -> F -> F;
  fmul : F -> F -> F;
  fdiv : F -> F -> F;
  fpow : F -> Z -> F;
  fcos : F -> F;
  fsin : F -> F;
  fsqrt : F -> F;
  fmax : F -> F -> F;
  to_float32 : F -> F;
  np_radians : F -> F
}.

(** The free interpretation: floats as the expressions that compute
    them.  It is the instance the closed examples run on. *)
Inductive fterm : Type :=
| TLit (q : Q)
| TAdd (a b : fterm)
| TSub (a b : fterm)
| TMul (a b : fterm)
| TDiv (a b : fterm)
| TPow (a : fterm) (n : Z)
| TCos (a : fterm)
| TSin (a : fterm)
| TSqrt (a : fterm)
| TMax (a b : fterm)
| TFloat32 (a : fterm)
| TRadians (a : fterm).

#[export] Instance fterm_ops : FloatOps fterm := {|
  flit := TLit; fadd := TAdd; fsub := TSub; fmul := TMul; fdiv := TDiv;
  fpow := TPow; fcos := TCos; fsin := TSin; fsqrt := TSqrt; fmax := TMax;
  to_float32 := TFloat32; np_radians := TRadians
|}.

(** ** Exceptions and results *)

Inductive exn : Type :=
| AssertionError          (* [assert False and "..."] *)
| TypeError               (* wrong number of positional arguments *)
| IndexError              (* [x[:, k]] on too few dimensions or columns *)
| CudaUnavailable         (* a tensor is placed on cuda:0 without CUDA *)
| BroadcastError          (* operand shapes cannot be broadcast *)
| DeviceMismatch          (* operands of one operation on two devices *)
| ShapeError              (* a reshape that does not fit *)
| ValueError              (* arrays that cannot be stacked *)
| NetworkError            (* raised inside an opaque network *)
| FileNotFoundError       (* [os.makedirs] of the empty path *)
| FileExistsError         (* [os.makedirs] of a directory that exists *)
| OSError.                (* any other refusal of the operating system *)

Inductive result (A : Type) : Type :=
| Ok (a : A)
| Raise (e : exn).
Arguments Raise {A} e.

Definition rbind {A B} (r : result A) (k : A -> result B) : result B :=
  match r with
  | Ok a => k a
  | Raise e => Raise e
  end.

Declare Scope result_scope.
Delimit Scope result_scope with result.
Notation "x <- r ;; k" := (rbind r (fun x => k))
  (at level 61, r at next level, right associativity) : result_scope.

(** ** Tensors *)

Inductive device : Type :=
| Cpu
| Cuda (index : nat).

Definition device_eqb (a b : device) : bool :=
  match a, b with
  | Cpu, Cpu => true
  | Cuda i, Cuda j => Nat.eqb i j
  | _, _ => false
  end.

Definition numel (shape : list nat) : nat := fold_right Nat.mul 1 shape.

(** Broadcasting, on shapes written last dimension first: two sizes are
    compatible when they are equal or one of them is 1; a missing
    leading dimension counts as 1. *)
Fixpoint broadcast_rev (a b : list nat) : option (list nat) :=
  match a, b with
  | [], _ => Some b
  | _, [] => Some a
  | x :: a', y :: b' =>
      match broadcast_rev a' b' with
      | None => None
      | Some r =>
          if (x =? y)%nat then Some (x :: r)
          else if (x =? 1)%nat then Some (y :: r)
          else if (y =? 1)%nat then Some (x :: r)
          else None
      end
  end.

Definition broadcast_shapes (a b : list nat) : option (list nat) :=
  option_map (@rev nat) (broadcast_rev (rev a) (rev b)).

(** The flat (row-major) position in an operand of shape [op] of the
    element that the broadcast result of shape [res] has at flat position
    [idx]; both shapes last dimension first, [stride] the stride of the
    operand's current dimension. *)
Fixpoint src_index_rev (op res : list nat) (idx stride : nat) : nat :=
  match res with
  | [] => 0
  | r :: res' =>
      match op with
      | [] => 0
      | o :: op' =>
          (if (o =? 1)%nat then 0 else idx mod r) * stride
          + src_index_rev op' res' (idx / r) (stride * o)
      end
  end.

Definition src_index (op res : list nat) (idx : nat) : nat :=
  src_index_rev (rev op) (rev res) idx 1.

Section Tensors.
Context {F : Type} {ops : FloatOps F}.

Record tensor : Type := {
  t_shape : list nat;
  t_data : list F;           (* row-major *)
  t_device : device
}.

(** Out-of-range reads do not occur on well-formed tensors; [nth]
    needs a default all the same. *)
Definition fdefault : F := flit 0%Q.

Definition well_formed (t : tensor) : Prop :=
  length (t_data t) = numel (t_shape t).

Definition tmap (f : F -> F) (t : tensor) : tensor :=
  {| t_shape := t_shape t;
     t_data := map f (t_data t);
     t_device := t_device t |}.

(** An elementwise binary operation of torch: operands on one device,
    shapes broadcast. *)
Definition binary_op (f : F -> F -> F) (a b : tensor) : result tensor :=
  if device_eqb (t_device a) (t_device b) then
    match broadcast_shapes (t_shape a) (t_shape b) with
    | Some s =>
        Ok {| t_shape := s;
              t_data :=
                map (fun idx =>
                       f (nth (src_index (t_shape a) s idx) (t_data a) fdefault)
                         (nth (src_index (t_shape b) s idx) (t_data b) fdefault))
                    (seq 0 (numel s));
              t_device := t_device a |}
    | None => Raise BroadcastError
    end
  else Raise DeviceMismatch.

Definition torch_max : tensor -> tensor -> result tensor := binary_op fmax.
Definition tensor_mul : tensor -> tensor -> result tensor := binary_op fmul.
Definition tensor_add : tensor -> tensor -> result tensor := binary_op fadd.

Definition torch_cos : tensor -> tensor := tmap fcos.
Definition torch_sin : tensor -> tensor := tmap fsin.

(** [c * t], [t / c] and [t - c] for a Python float [c]. *)
Definition scalar_mul (c : F) (t : tensor) : tensor := tmap (fmul c) t.
Definition div_scalar (t : tensor) (c : F) : tensor :=
  tmap (fun v => fdiv v c) t.
Definition sub_scalar (t : tensor) (c : F) : tensor :=
  tmap (fun v => fsub v c) t.

(** [x[:, k]]: needs two dimensions and [k] within the second. *)
Definition select_column (x : tensor) (k : nat) : result tensor :=
  match t_shape x with
  | n :: m :: rest =>
      if (k <? m)%nat then
        let r := numel rest in
        Ok {| t_shape := n :: rest;
              t_data :=
                flat_map (fun i => firstn r (skipn ((i * m + k) * r) (t_data x)))
                         (seq 0 n);
              t_device := t_device x |}
      else Raise IndexError
  | _ => Raise IndexError
  end.

(** [torch.tensor(t, device='cuda:0')], with [dtype=torch.float32]
    when [float32] is set: the data is copied to the first CUDA
    device, which has to exist. *)
Definition torch_tensor_cuda0 (cuda_available float32 : bool) (t : tensor)
  : result tensor :=
  if cuda_available then
    Ok {| t_shape := t_shape t;
          t_data := if float32 then map to_float32 (t_data t) else t_data t;
          t_device := Cuda 0 |}
  else Raise CudaUnavailable.

(** [t.reshape(-1, 1)]. *)
Definition reshape_m1_1 (t : tensor) : tensor :=
  {| t_shape := [numel (t_shape t); 1];
     t_data := t_data t;
     t_device := t_device t |}.

(** *** GyroidLattice.forward (lines 63-78) *)

Definition kCellSize : F := fmul (flit 0.014408772790049425%Q) (flit 3%Q).

(** [t], the isovalue of line 70. *)
Definition isovalue : F := flit 0.5%Q.

(** [2*3.14*c/kCellSize] *)
Definition phase (c : tensor) : tensor :=
  div_scalar (scalar_mul (fmul (flit 2%Q) (flit 3.14%Q)) c) kCellSize.

Local Open Scope result_scope.

(** Lines 71-73: the gyroid implicit value of every row, from the
    three columns of [x]. *)
Definition gyroid_field (x : tensor) : result tensor :=
  x0 <- select_column x 0 ;;
  x1 <- select_column x 1 ;;
  a <- tensor_mul (torch_cos (phase x0)) (torch_sin (phase x1)) ;;
  x2 <- select_column x 2 ;;
  b <- tensor_mul (torch_cos (phase x1)) (torch_sin (phase x2)) ;;
  ab <- tensor_add a b ;;
  c <- tensor_mul (torch_cos (phase x2)) (torch_sin (phase x0)) ;;
  abc <- tensor_add ab c ;;
  Ok (sub_scalar abc (fpow isovalue 2)).

(** [forward]: the gyroid values are copied to cuda:0 as float32
    (line 74), reshaped to one column (line 75) and combined with the
    values of the wrapped network by [torch.max] (line 78). *)
Definition forward (cuda_available : bool) (sdf_net : tensor -> result tensor)
           (x : tensor) : result tensor :=
  gyroid <- gyroid_field x ;;
  gyroid <- torch_tensor_cuda0 cuda_available true gyroid ;;
  let gyroid := reshape_m1_1 gyroid in
  s <- sdf_net x ;;
  torch_max gyroid s.

(** The gyroid implicit value at a point, as line 71-73 computes it. *)
Definition gyroid_value (x y z : F) : F :=
  let p v := fdiv (fmul (fmul (flit 2%Q) (flit 3.14%Q)) v) kCellSize in
  fsub (fadd (fadd (fmul (fcos (p x)) (fsin (p y)))
                   (fmul (fcos (p y)) (fsin (p z))))
             (fmul (fcos (p z)) (fsin (p x))))
       (fpow isovalue 2).

(** Entry [(i, k)] of a batch of shape (N, 3). *)
Definition entry (x : tensor) (i k : nat) : F :=
  nth (i * 3 + k) (t_data x) fdefault.

(** A tensor given by its entries. *)
Definition tabulate (shape : list nat) (dev : device) (g : nat -> F) : tensor :=
  {| t_shape := shape; t_data := map g (seq 0 (numel shape)); t_device := dev |}.

End Tensors.


(** ** Strings, paths and number formatting *)

(** [s.split(sep)] for a one-character separator. *)
Fixpoint split_on (sep : ascii) (s : string) : list string :=
  match s with
  | EmptyString => [EmptyString]
  | String c s' =>
      if Ascii.eqb c sep then EmptyString :: split_on sep s'
      else match split_on sep s' with
           | h :: t => String c h :: t
           | [] => [String c EmptyString]
           end
  end.

(** [pretrained.split('/')[-1].split('.')[0]] (line 119). *)
Definition model_name (pretrained : string) : string :=
  hd EmptyString (split_on "." (last (split_on "/" pretrained) EmptyString)).

Definition starts_with_slash (s : string) : bool :=
  match s with
  | String c _ => Ascii.eqb c "/"
  | EmptyString => false
  end.

Fixpoint ends_with_slash (s : string) : bool :=
  match s with
  | EmptyString => false
  | String c EmptyString => Ascii.eqb c "/"
  | String _ s' => ends_with_slash s'
  end.

(** [os.path.join(a, b)] of posixpath. *)
Definition os_path_join (a b : string) : string :=
  if starts_with_slash b then b
  else if orb (String.eqb a EmptyString) (ends_with_slash a) then (a ++ b)%string
  else (a ++ "/" ++ b)%string.

Fixpoint zeros (n : nat) : string :=
  match n with
  | O => EmptyString
  | S n' => String "0" (zeros n')
  end.

(** ['{:06d}'.format(n)]: sign first, then zeros up to six characters. *)
Definition format_06d (n : Z) : string :=
  let digits := NilEmpty.string_of_uint (N.to_uint (Z.abs_N n)) in
  if (n <? 0)%Z then
    ("-" ++ zeros (5 - String.length digits) ++ digits)%string
  else (zeros (6 - String.length digits) ++ digits)%string.

(** [np.arange(start, stop, step)] on integers, [step > 0]. *)
Definition np_arange (start stop step : Z) : list Z :=
  map (fun i => (start + Z.of_nat i * step)%Z)
      (seq 0 (Z.to_nat ((stop - start + step - 1) / step))).

(** [int(math.floor(v))]. *)
Definition math_floor (v : Q) : Z := Qfloor v.

(** ** The script *)

(** How a computation of the script ends: with a value, with an
    uncaught exception, or through [sys.exit]/[exit]. *)
Inductive outcome (A : Type) : Type :=
| Val (a : A)
| Raised (e : exn)
| Exited (status : Z).
Arguments Raised {A} e.
Arguments Exited {A} status.

Inductive channel : Type := Rgb | Normal.

Inductive mode : Type :=
| Spin360            (* --r360, line 167 *)
| SphereViews        (* --rsphere, line 189 *)
| SdfGrid            (* --sdf_grid, line 208 *)
| MarchingCubes.     (* the final else, line 225 *)

(** The network objects the script builds: the network class named by
    [--net] with its loaded weights, and the two wrappers. *)
Inductive module : Type :=
| OrgNet (cls : string) (scripted : bool) (weights : string)
| GyroidLattice (sdf_net : module)
| SOL_NGLOD (inner : module).

(** ** The file system

    [os.path.exists] and [os.makedirs] are calls into the operating
    system.  The state of the file system is kept abstract: the script
    only asks whether a path exists and has directories made, and only
    what holds of every file system is assumed of the two calls.  The
    empty path does not exist and cannot be made; a path whose making
    has returned exists; and making a directory removes none: what
    existed before still exists.  [os.makedirs] may refuse any other
    path as well (a directory that exists, a missing permission), and
    it may create more than is asked (the missing parents). *)
Class FileSystem (FS : Type) : Type := {
  path_exists : FS -> string -> bool;
  makedirs : FS -> string -> result FS;
  exists_empty : forall fs, path_exists fs EmptyString = false;
  makedirs_empty : forall fs, makedirs fs EmptyString = Raise FileNotFoundError;
  makedirs_exists :
    forall fs p fs', makedirs fs p = Ok fs' -> path_exists fs' p = true;
  makedirs_keeps :
    forall fs p fs' q,
      makedirs fs p = Ok fs' -> path_exists fs q = true -> path_exists fs' q = true
}.

Section Script.
Context {F : Type} {ops : FloatOps F}.
Context {FS : Type} {fsys : FileSystem FS}.
Local Abbreviation tensor := (@tensor F).

Definition of_int (z : Z) : F := flit (inject_Z z).

(** [c * v] for a float [c] and an array [v]. *)
Definition scale (c : F) (v : list F) : list F := map (fmul c) v.

(** [np.linspace(start, stop, num)]: [arange(num) * step + start] with
    the last sample set to [stop]. *)
Definition np_linspace (start stop : F) (num : nat) : list F :=
  let delta := fsub stop start in
  let step := if (num - 1 =? 0)%nat then delta
              else fdiv delta (of_int (Z.of_nat (num - 1))) in
  map (fun i =>
         if andb (1 <? num)%nat (i =? num - 1)%nat then stop
         else fadd (fmul (of_int (Z.of_nat i)) step) start)
      (seq 0 num).

(** [[[x,y,z] for x in Kx for y in Ky for z in Kz]]; a point is kept
    as a triple. *)
Definition grid_points (Kx Ky Kz : list F) : list (F * F * F) :=
  flat_map (fun x => flat_map (fun y => map (fun z => (x, y, z)) Kz) Ky) Kx.

(** [np.array(grid)] of a non-empty list of points: shape (len, 3). *)
Definition np_array (grid : list (F * F * F)) : tensor :=
  {| t_shape := [length grid; 3];
     t_data := flat_map (fun '(x, y, z) => [x; y; z]) grid;
     t_device := Cpu |}.

(** [t.reshape(-1, 3)]. *)
Definition reshape_m1_3 (t : tensor) : result tensor :=
  if (numel (t_shape t) mod 3 =? 0)%nat then
    Ok {| t_shape := [numel (t_shape t) / 3; 3];
          t_data := t_data t;
          t_device := t_device t |}
  else Raise ShapeError.

(** [t.detach().cpu().numpy()]. *)
Definition to_numpy (t : tensor) : tensor :=
  {| t_shape := t_shape t; t_data := t_data t; t_device := Cpu |}.

(** One positional argument of a call. *)
Inductive pyvalue : Type :=
| PyArray (a : tensor)
| PyTuple (items : list tensor).

(** *** Objects of the script *)

(** A model matrix: [torch.eye(3)], or
    [torch.FloatTensor(R.from_rotvec(v).as_matrix())], the rotation
    about the direction of [v] by its length in radians. *)
Inductive matrix : Type :=
| Eye3
| FromRotvec (v : list F).

(** The keyword arguments of one [renderer.shade_images] call. *)
Record shade_call : Type := {
  sc_f : list F;
  sc_t : list F;
  sc_fv : F;
  sc_aa : bool;
  sc_mm : matrix
}.

(** The parsed command line: the options the script adds and the ones
    of [parse_options] it reads. *)
Record Args : Type := {
  pretrained : option string;
  net : string;
  jit : bool;
  sol : bool;
  lod : option Z;
  camera_origin : list F;
  camera_lookat : list F;
  camera_fov : F;
  img_dir : string;
  render_2d : bool;
  exr : bool;
  r360 : bool;
  rsphere : bool;
  sdf_grid : bool;
  nb_poses : Z;
  cam_radius : F;
  disable_aa : bool;
  export : option string;
  rotate : option F;
  depth : F
}.

(** What the run does not decide: whether CUDA is there, what the
    imported networks compute, what [sample_fib_sphere] returns and
    what [numpy.hstack] makes of a sequence of arrays. *)
Record Env : Type := {
  cuda_available : bool;
  org_forward : tensor -> result tensor;
  sol_forward : module -> tensor -> result tensor;
  sample_fib_sphere : Z -> list (list F);
  (** Modelled from the spec: [sample_fib_sphere] of lib/geoutils.py
      is not among the sources.  Of its result only the number of
      directions is fixed, as the specification has it: asked for
      [n] samples, it returns [n] directions. *)
  fib_sphere_count :
    forall n, (0 <= n)%Z -> Z.of_nat (length (sample_fib_sphere n)) = n;
  hstack_of : pyvalue -> result tensor
}.

(** [numpy.hstack(tup)] takes exactly one positional argument, the
    sequence of arrays; with any other number of positional arguments
    the call raises TypeError before numpy looks at them. *)
Definition np_hstack (env : Env) (positional : list pyvalue) : result tensor :=
  match positional with
  | [tup] => hstack_of env tup
  | _ => Raise TypeError
  end.

(** Calling a network object on a batch. *)
Fixpoint net_call (env : Env) (m : module) (x : tensor) : result tensor :=
  match m with
  | OrgNet _ _ _ => org_forward env x
  | GyroidLattice sdf_net => forward (cuda_available env) (net_call env sdf_net) x
  | SOL_NGLOD inner => sol_forward env inner x
  end.

(** *** Effects *)

(** The calls into the libraries and the operating system, in the
    order the script makes them.  [EEnter] is a ghost event: it marks
    that control enters the branch of a mode and stands for no call. *)
Inductive event : Type :=
| EConstructNet (cls : string)                    (* line 123 *)
| EJitScript (cls : string)                       (* line 125 *)
| ELoadStateDict (path : string)                  (* line 127 *)
| EToDevice (m : module) (d : device)             (* lines 129, 132 *)
| EEval (m : module)                              (* lines 130, 133, 216 *)
| EPrintParameters (m : module)                   (* line 135 *)
| ESolSave (m : module) (path : string)           (* line 140 *)
| ESetLod (m : module) (l : Z)                    (* line 147 *)
| EMakedirs (path : string)                       (* lines 152, 157, returned *)
| ERenderer (m : module) (d : device)             (* line 159 *)
| EEnter (md : mode)
| EShadeImages (c : shade_call)                   (* lines 172, 193 *)
| EWriteExr (path : string) (c : shade_call)      (* line 202 *)
| ESavePng (path : string) (ch : channel) (c : shade_call) (* lines 186, 206 *)
| EPrint (s : string)                             (* lines 226, 237 *)
| EPrintShape (s : string) (shape : list nat)     (* lines 214, 218 *)
| EPrintTensor (t : tensor)                       (* line 219 *)
| ENetCall (m : module) (x : tensor) (no_grad : bool) (* lines 217, 246 *)
| ESaveTxt (path : string) (r : tensor)           (* line 222 *)
| EMarch (grid sdf : tensor)                      (* line 252 *)
| EGetMesh                                        (* line 253 *)
| ESaveMesh (path : string).                      (* line 254 *)

(** A computation reads and changes the file system, emits events
    and returns, raises or exits. *)
Definition M (A : Type) : Type :=
  FS -> list event * FS * outcome A.

Definition ret {A} (a : A) : M A := fun fs => ([], fs, Val a).

Definition bind {A B} (m : M A) (k : A -> M B) : M B :=
  fun fs =>
    match m fs with
    | (tr, fs', Val a) =>
        match k a fs' with
        | (tr', fs'', o) => (tr ++ tr', fs'', o)
        end
    | (tr, fs', Raised e) => (tr, fs', Raised e)
    | (tr, fs', Exited c) => (tr, fs', Exited c)
    end.

Definition emit (e : event) : M unit := fun fs => ([e], fs, Val tt).
Definition raise {A} (e : exn) : M A := fun fs => ([], fs, Raised e).
Definition sys_exit {A} (status : Z) : M A := fun fs => ([], fs, Exited status).

Definition lift {A} (r : result A) : M A :=
  match r with
  | Ok a => ret a
  | Raise e => raise e
  end.

Definition os_path_exists (path : string) : M bool :=
  fun fs => ([], fs, Val (path_exists fs path)).

(** The event records a call that has returned. *)
Definition os_makedirs (path : string) : M unit :=
  fun fs =>
    match makedirs fs path with
    | Ok fs' => ([EMakedirs path], fs', Val tt)
    | Raise e => ([], fs, Raised e)
    end.

Fixpoint for_each {A} (l : list A) (body : A -> M unit) : M unit :=
  match l with
  | [] => ret tt
  | x :: l' => bind (body x) (fun _ => for_each l' body)
  end.

Definition when (b : bool) (m : M unit) : M unit := if b then m else ret tt.

Definition enumerate {A} (l : list A) : list (Z * A) :=
  combine (map Z.of_nat (seq 0 (length l))) l.

End Script.

Declare Scope script_scope.
Delimit Scope script_scope with script.
Notation "x <- m ;; k" := (bind m (fun x => k))
  (at level 61, m at next level, right associativity) : script_scope.
Notation "m ;; k" := (bind m (fun _ => k))
  (at level 61, right associativity) : script_scope.

(** *** The [__main__] block (lines 81-266) *)

Section Main.
Context {F : Type} {ops : FloatOps F}.
Context {FS : Type} {fsys : FileSystem FS}.
Local Abbreviation tensor := (@tensor F).
Local Abbreviation Args := (@Args F).
Local Abbreviation Env := (@Env F).
Local Abbreviation M := (@M F FS).
Local Abbreviation matrix := (@matrix F).
Local Abbreviation shade_call := (@shade_call F).
Local Abbreviation event := (@event F).

Local Open Scope script_scope.

(** [if not os.path.exists(d): os.makedirs(d)] *)
Definition ensure_dir (path : string) : M unit :=
  ex <- os_path_exists path ;;
  when (negb ex) (os_makedirs path).

(** Lines 150-157. *)
Definition make_output_dirs (ins_dir : string) : M unit :=
  ensure_dir ins_dir ;;
  for_each ["normal"; "rgb"; "exr"]%string
           (fun t => ensure_dir (os_path_join ins_dir t)).

(** Lines 167-187. *)
Definition run_r360 (args : Args) (ins_dir : string) (model_matrix : matrix)
  : M unit :=
  for_each (np_arange 0 360 10) (fun angle =>
    let rad := np_radians (of_int angle) in
    let c := fdiv (flit (-1)%Q) (fsqrt (flit 3%Q)) in
    let model_matrix := FromRotvec (scale rad [c; c; c]) in
    let out := {| sc_f := camera_origin args;
                  sc_t := camera_lookat args;
                  sc_fv := camera_fov args;
                  sc_aa := negb (disable_aa args);
                  sc_mm := model_matrix |} in
    emit (EShadeImages out) ;;
    let idx := math_floor (inject_Z (100 * angle)) in
    emit (ESavePng (ins_dir ++ "/rgb/" ++ format_06d idx ++ ".png") Rgb out)).

(** Lines 189-206. *)
Definition run_rsphere (env : Env) (args : Args) (ins_dir : string)
           (model_matrix : matrix) : M unit :=
  let views := sample_fib_sphere env (nb_poses args) in
  let cam_origins := map (scale (cam_radius args)) views in
  for_each (enumerate cam_origins) (fun '(p, cam_origin) =>
    let out := {| sc_f := cam_origin;
                  sc_t := camera_lookat args;
                  sc_fv := camera_fov args;
                  sc_aa := negb (disable_aa args);
                  sc_mm := model_matrix |} in
    emit (EShadeImages out) ;;
    when (exr args)
         (emit (EWriteExr (ins_dir ++ "/exr/" ++ format_06d p ++ ".exr") out)) ;;
    emit (ESavePng (ins_dir ++ "/normal/" ++ format_06d p ++ ".png") Normal out)).

(** Lines 211-212: 150 samples per axis over [-1.1, 1.1]. *)
Definition csv_points : list (F * F * F) :=
  let K := np_linspace (flit (-1.1)%Q) (flit 1.1%Q) 150 in
  grid_points K K K.

(** Lines 208-223. *)
Definition run_sdf_grid (env : Env) (net : module) : M unit :=
  let grid := csv_points in
  torch_grid <- lift (torch_tensor_cuda0 (cuda_available env) false (np_array grid)) ;;
  emit (EPrintShape "shape of torch grid: " (t_shape torch_grid)) ;;
  emit (EEval net) ;;
  emit (ENetCall net torch_grid false) ;;
  sdf <- lift (net_call env net torch_grid) ;;
  emit (EPrintShape "shape of sdf grid: " (t_shape sdf)) ;;
  emit (EPrintTensor sdf) ;;
  r <- lift (np_hstack env [PyArray (to_numpy sdf);
                            PyArray (to_numpy torch_grid)]) ;;
  emit (ESaveTxt "sdf.csv" r) ;;
  sys_exit 1.

(** Lines 240-243: 150 samples per axis over
    [-1, 1] x [-0.3, 0.5] x [-0.3, 0.8]. *)
Definition mesh_points : list (F * F * F) :=
  let Kx := np_linspace (flit (-1)%Q) (flit 1%Q) 150 in
  let Ky := np_linspace (flit (-0.3)%Q) (flit 0.5%Q) 150 in
  let Kz := np_linspace (flit (-0.3)%Q) (flit 0.8%Q) 150 in
  grid_points Kx Ky Kz.

(** Lines 225-254. *)
Definition run_marching_cubes (env : Env) (net : module) : M unit :=
  emit (EPrint "[INFO] here it is") ;;
  emit (EPrint "[INFO] sdf slice") ;;
  let grid := mesh_points in
  torch_grid <- lift (torch_tensor_cuda0 (cuda_available env) true (np_array grid)) ;;
  batch <- lift (reshape_m1_3 torch_grid) ;;
  emit (ENetCall net batch true) ;;
  sdf <- lift (net_call env net batch) ;;
  let np_sdf := to_numpy sdf in
  let np_grid := to_numpy torch_grid in
  emit (EMarch np_grid np_sdf) ;;
  emit EGetMesh ;;
  emit (ESaveMesh "./marched_gyroid.obj").

(** The choice of the mode, lines 167, 189, 208 and 225. *)
Definition dispatch (env : Env) (args : Args) (net : module) (ins_dir : string)
           (model_matrix : matrix) : M unit :=
  if r360 args then
    emit (EEnter Spin360) ;; run_r360 args ins_dir model_matrix
  else if rsphere args then
    emit (EEnter SphereViews) ;; run_rsphere env args ins_dir model_matrix
  else if sdf_grid args then
    emit (EEnter SdfGrid) ;; run_sdf_grid env net
  else
    emit (EEnter MarchingCubes) ;; run_marching_cubes env net.

(** The script, with assertions enabled (the interpreter is not run
    with -O). *)
Definition main (env : Env) (args : Args) : M unit :=
  (* Pick device *)
  let use_cuda := cuda_available env in
  let device := if use_cuda then Cuda 0 else Cpu in
  (* Get model name *)
  weights <- match pretrained args with
             | Some p => ret p
             | None => raise AssertionError
             end ;;
  let name := model_name weights in
  emit (EConstructNet (net args)) ;;
  when (jit args) (emit (EJitScript (net args))) ;;
  emit (ELoadStateDict weights) ;;
  let org_net := OrgNet (net args) (jit args) weights in
  emit (EToDevice org_net device) ;;
  emit (EEval org_net) ;;
  let net := GyroidLattice org_net in
  emit (EToDevice net device) ;;
  emit (EEval net) ;;
  emit (EPrintParameters net) ;;
  match export args with
  | Some path =>
      let net := SOL_NGLOD net in
      emit (ESolSave net path) ;;
      sys_exit 0
  | None =>
      let net := if sol args then SOL_NGLOD net else net in
      match lod args with
      | Some l => emit (ESetLod net l)
      | None => ret tt
      end ;;
      (* Make output directory *)
      let ins_dir := os_path_join (img_dir args) name in
      make_output_dirs ins_dir ;;
      emit (ERenderer net device) ;;
      let model_matrix :=
        match rotate args with
        | Some r =>
            FromRotvec (scale (np_radians r) [flit 0%Q; flit 1%Q; flit 0%Q])
        | None => Eye3
        end in
      dispatch env args net ins_dir model_matrix
  end.

(** A run starts from a state of the file system. *)
Definition run (env : Env) (args : Args) (fs : FS)
  : list event * FS * outcome unit :=
  main env args fs.

Definition trace_of (env : Env) (args : Args) (fs : FS) : list event :=
  fst (fst (run env args fs)).

Definition outcome_of (env : Env) (args : Args) (fs : FS) : outcome unit :=
  snd (run env args fs).

(** *** Reading a trace *)

Definition modes_entered (tr : list event) : list mode :=
  flat_map (fun e => match e with EEnter m => [m] | _ => [] end) tr.

Definition shade_calls (tr : list event) : list shade_call :=
  flat_map (fun e => match e with EShadeImages c => [c] | _ => [] end) tr.

Definition saved_pngs (tr : list event) : list (string * channel * shade_call) :=
  flat_map (fun e => match e with ESavePng p ch c => [(p, ch, c)] | _ => [] end) tr.

Definition written_exrs (tr : list event) : list (string * shade_call) :=
  flat_map (fun e => match e with EWriteExr p c => [(p, c)] | _ => [] end) tr.

Definition made_dirs (tr : list event) : list string :=
  flat_map (fun e => match e with EMakedirs p => [p] | _ => [] end) tr.

Definition renderers (tr : list event) : list (module * device) :=
  flat_map (fun e => match e with ERenderer m d => [(m, d)] | _ => [] end) tr.

Definition net_calls (tr : list event) : list (module * tensor * bool) :=
  flat_map (fun e => match e with ENetCall m x g => [(m, x, g)] | _ => [] end) tr.

Definition marches (tr : list event) : list (tensor * tensor) :=
  flat_map (fun e => match e with EMarch g s => [(g, s)] | _ => [] end) tr.

Definition saved_meshes (tr : list event) : list string :=
  flat_map (fun e => match e with ESaveMesh p => [p] | _ => [] end) tr.

Definition saved_txts (tr : list event) : list string :=
  flat_map (fun e => match e with ESaveTxt p _ => [p] | _ => [] end) tr.

Definition sol_saves (tr : list event) : list (module * string) :=
  flat_map (fun e => match e with ESolSave m p => [(m, p)] | _ => [] end) tr.

(** The network an event hands to a consumer, if it hands one. *)
Definition hands (e : event) : option module :=
  match e with
  | ERenderer m _ => Some m
  | ENetCall m _ _ => Some m
  | ESolSave m _ => Some m
  | _ => None
  end.

(** The network objects handed to a consumer: the renderer, a direct
    evaluation, or the export. *)
Definition handed_networks (tr : list event) : list module :=
  flat_map (fun e => match hands e with Some m => [m] | None => [] end) tr.

(** The mode the flags select, in the words of the specification:
    --r360, else --rsphere, else --sdf_grid, else mesh extraction. *)
Definition mode_by_priority (args : Args) : mode :=
  if r360 args then Spin360
  else if rsphere args then SphereViews
  else if sdf_grid args then SdfGrid
  else MarchingCubes.

End Main.

(** ** Vocabulary of the statements *)

Fixpoint contains_char (c : ascii) (s : string) : bool :=
  match s with
  | EmptyString => false
  | String c' s' => orb (Ascii.eqb c' c) (contains_char c s')
  end.

(** [sep.join(l)] *)
Definition join_with (sep : ascii) (l : list string) : string :=
  match l with
  | [] => EmptyString
  | h :: t => (h ++ fold_right (fun x acc => String sep (x ++ acc)) EmptyString t)%string
  end.

(** The final path component stripped of its extension, in the words of
    the specification: the text after the last '/', without its last
    '.' and what follows it (as [os.path.splitext] splits it; a leading
    '.' starts no extension). *)
Fixpoint strip_last_dot (s : string) : string :=
  match s with
  | EmptyString => EmptyString
  | String c s' =>
      if contains_char "." s' then String c (strip_last_dot s')
      else if Ascii.eqb c "." then EmptyString
      else String c s'
  end.

Definition stem_of_path (path : string) : string :=
  match last (split_on "/" path) EmptyString with
  | EmptyString => EmptyString
  | String c s' => String c (strip_last_dot s')
  end.

Section Vocabulary.
Context {F : Type} {ops : FloatOps F}.
Context {FS : Type} {fsys : FileSystem FS}.
Local Abbreviation tensor := (@tensor F).
Local Abbreviation Args := (@Args F).
Local Abbreviation Env := (@Env F).
Local Abbreviation M := (@M F FS).
Local Abbreviation matrix := (@matrix F).
Local Abbreviation shade_call := (@shade_call F).
Local Abbreviation event := (@event F).

(** Every event of a computation satisfies [P], from any directories. *)
Definition trace_all {A} (P : event -> Prop) (m : M A) : Prop :=
  forall fs, Forall P (fst (fst (m fs))).

Definition picked_device (env : Env) : device :=
  if cuda_available env then Cuda 0 else Cpu.

(** The network of line 123-130, loaded from [weights]. *)
Definition org_net_of (args : Args) (weights : string) : module :=
  OrgNet (net args) (jit args) weights.

(** [net] as lines 143-144 leave it. *)
Definition net_of (args : Args) (weights : string) : module :=
  if sol args then SOL_NGLOD (GyroidLattice (org_net_of args weights))
  else GyroidLattice (org_net_of args weights).

Definition ins_dir_of (args : Args) (weights : string) : string :=
  os_path_join (img_dir args) (model_name weights).

(** The directories of lines 150-157 get made: every [os.makedirs]
    call of the run returns, so that the run goes on to line 159. *)
Definition output_dirs_made (args : Args) (weights : string) (fs : FS) : Prop :=
  snd (make_output_dirs (F:=F) (ins_dir_of args weights) fs) = Val tt.

(** The paths for which [os.makedirs] returns at lines 150-157, and
    the file system that these lines leave. *)
Definition dirs_made (args : Args) (weights : string) (fs : FS) : list string :=
  made_dirs (fst (fst (make_output_dirs (F:=F) (ins_dir_of args weights) fs))).

Definition dirs_state (args : Args) (weights : string) (fs : FS) : FS :=
  snd (fst (make_output_dirs (F:=F) (ins_dir_of args weights) fs)).

(** The mode whose branch makes a call, for the calls that only one
    branch makes: saving the RGB image (line 186), writing the EXR
    file and saving the normal map (lines 202, 206), printing the
    shapes and the values, evaluating with gradients and dumping the
    CSV (lines 214-222), printing the notices, evaluating under
    [torch.no_grad] and marching (lines 226-254). *)
Definition mode_of_event (e : event) : option mode :=
  match e with
  | ESavePng _ Rgb _ => Some Spin360
  | ESavePng _ Normal _ | EWriteExr _ _ => Some SphereViews
  | EPrintShape _ _ | EPrintTensor _ | ESaveTxt _ _ | ENetCall _ _ false =>
      Some SdfGrid
  | EPrint _ | ENetCall _ _ true | EMarch _ _ | EGetMesh | ESaveMesh _ =>
      Some MarchingCubes
  | _ => None
  end.

(** [model_matrix] as lines 161-165 leave it. *)
Definition rotate_matrix (args : Args) : matrix :=
  match rotate args with
  | Some r => FromRotvec (scale (np_radians r) [flit 0%Q; flit 1%Q; flit 0%Q])
  | None => Eye3
  end.

(** The events of lines 123-147. *)
Definition setup_events (env : Env) (args : Args) (weights : string) : list event :=
  [EConstructNet (net args)]
  ++ (if jit args then [EJitScript (net args)] else [])
  ++ [ELoadStateDict weights;
      EToDevice (org_net_of args weights) (picked_device env);
      EEval (org_net_of args weights);
      EToDevice (GyroidLattice (org_net_of args weights)) (picked_device env);
      EEval (GyroidLattice (org_net_of args weights));
      EPrintParameters (GyroidLattice (org_net_of args weights))].

(** The rotation by [angle] degrees about (-1,-1,-1)/sqrt(3), as a
    rotation vector: the angle in radians times the axis. *)
Definition spin_axis : list F :=
  let c := fdiv (flit (-1)%Q) (fsqrt (flit 3%Q)) in [c; c; c].

Definition spin_matrix (angle : Z) : matrix :=
  FromRotvec (scale (np_radians (of_int angle)) spin_axis).

Definition spin_call (args : Args) (angle : Z) : shade_call :=
  {| sc_f := camera_origin args;
     sc_t := camera_lookat args;
     sc_fv := camera_fov args;
     sc_aa := negb (disable_aa args);
     sc_mm := spin_matrix angle |}.

(** The view from [cam_radius] times the direction [view]. *)
Definition sphere_call (args : Args) (view : list F) : shade_call :=
  {| sc_f := scale (cam_radius args) view;
     sc_t := camera_lookat args;
     sc_fv := camera_fov args;
     sc_aa := negb (disable_aa args);
     sc_mm := rotate_matrix args |}.

(** A uniform axis of [num] samples from [start] to [stop]: sample i
    is i steps of (stop - start) / (num - 1) from [start], and the
    last sample is [stop] itself. *)
Definition uniform_axis (K : list F) (start stop : F) (num : nat) : Prop :=
  length K = num /\
  (forall i, i < num - 1 ->
     nth i K fdefault
     = fadd (fmul (of_int (Z.of_nat i))
                  (fdiv (fsub stop start) (of_int (Z.of_nat (num - 1)))))
            start) /\
  nth (num - 1) K fdefault = stop.

(** The tensor that [torch.tensor(np.array(points), device='cuda:0')]
    builds, converted to float32 when [float32] is set. *)
Definition batch_on_cuda (float32 : bool) (points : list (F * F * F)) : tensor :=
  {| t_shape := [length points; 3];
     t_data := if float32
               then map to_float32 (flat_map (fun '(x, y, z) => [x; y; z]) points)
               else flat_map (fun '(x, y, z) => [x; y; z]) points;
     t_device := Cuda 0 |}.

(** The batch of line 244. *)
Definition mesh_batch : tensor := batch_on_cuda true mesh_points.

(** The batch of line 213. *)
Definition csv_batch : tensor := batch_on_cuda false csv_points.

(** The events of line 147. *)
Definition lod_events (args : Args) (weights : string) : list event :=
  match lod args with
  | Some l => [ESetLod (net_of args weights) l]
  | None => []
  end.

(** The events of one turn of the spinning loop. *)
Definition spin_events (args : Args) (ins_dir : string) (angle : Z) : list event :=
  [EShadeImages (spin_call args angle);
   ESavePng (ins_dir ++ "/rgb/" ++ format_06d (100 * angle) ++ ".png") Rgb
            (spin_call args angle)].

(** The events of one view of the sphere loop. *)
Definition sphere_events (args : Args) (ins_dir : string) (pv : Z * list F)
  : list event :=
  [EShadeImages (sphere_call args (snd pv))]
  ++ (if exr args
      then [EWriteExr (ins_dir ++ "/exr/" ++ format_06d (fst pv) ++ ".exr")
                      (sphere_call args (snd pv))]
      else [])
  ++ [ESavePng (ins_dir ++ "/normal/" ++ format_06d (fst pv) ++ ".png") Normal
               (sphere_call args (snd pv))].

(** The events up to the dispatch, given the directories created. *)
Definition prelude_events (env : Env) (args : Args) (weights : string)
           (dirs : list string) : list event :=
  setup_events env args weights ++ lod_events args weights
  ++ map (@EMakedirs F) dirs
  ++ [ERenderer (net_of args weights) (picked_device env)].

(** Every network that an event hands over satisfies [Q]. *)
Definition hands_only (Q : module -> Prop) (e : event) : Prop :=
  match hands e with
  | Some m => Q m
  | None => True
  end.

(** The angles of the spinning sequence: 0, 10, ..., 350 degrees. *)
Definition spin_angles : list Z :=
  map (fun k => (10 * Z.of_nat k)%Z) (seq 0 36).

(** The branch that the flags select (lines 167, 189, 208, 225). *)
Definition run_mode (env : Env) (args : Args) (weights : string) : M unit :=
  match mode_by_priority args with
  | Spin360 => run_r360 args (ins_dir_of args weights) (rotate_matrix args)
  | SphereViews =>
      run_rsphere env args (ins_dir_of args weights) (rotate_matrix args)
  | SdfGrid => run_sdf_grid env (net_of args weights)
  | MarchingCubes => run_marching_cubes env (net_of args weights)
  end.

(** The events that only a mode or the directory setup produces. *)
Definition rendering_event (e : event) : Prop :=
  match e with
  | EMakedirs _ | ERenderer _ _ | EEnter _ | EShadeImages _ | EWriteExr _ _
  | ESavePng _ _ _ | ENetCall _ _ _ | ESaveTxt _ _ | EMarch _ _ | EGetMesh
  | ESaveMesh _ => True
  | _ => False
  end.

End Vocabulary.

(** ** A concrete run, on the free interpretation *)

(** A small file system for the examples.  The state lists the paths
    that have been made; a directory exists when it is the working
    directory or the root, or when it is one of the listed directories
    or lies on the way to one.  Paths are compared by their components,
    so that 'imgs/' and 'imgs' name one directory; '..' is not
    resolved. *)
Definition components (p : string) : list string :=
  filter (fun c => negb (String.eqb c EmptyString) && negb (String.eqb c "."))
         (split_on "/" p).

Fixpoint is_prefix (a b : list string) : bool :=
  match a, b with
  | [], _ => true
  | x :: a', y :: b' => String.eqb x y && is_prefix a' b'
  | _ :: _, [] => false
  end.

Definition leads_to (p q : string) : bool :=
  Bool.eqb (starts_with_slash p) (starts_with_slash q)
  && is_prefix (components p) (components q).

Definition listed_exists (fs : list string) (p : string) : bool :=
  negb (String.eqb p EmptyString)
  && (match components p with [] => true | _ :: _ => false end
      || existsb (leads_to p) fs).

Definition listed_makedirs (fs : list string) (p : string) : result (list string) :=
  if String.eqb p EmptyString then Raise FileNotFoundError
  else if listed_exists fs p then Raise FileExistsError
  else Ok (p :: fs).

Lemma is_prefix_refl (a : list string) : is_prefix a a = true.
Proof. induction a as [|x a IH]; simpl; trivial. now rewrite String.eqb_refl. Qed.

Lemma listed_makedirs_exists (fs : list string) (p : string) (fs' : list string) :
  listed_makedirs fs p = Ok fs' -> listed_exists fs' p = true.
Proof.
  unfold listed_makedirs, listed_exists.
  destruct (String.eqb p EmptyString); [discriminate|].
  destruct (_ && _); [discriminate|]. intros [= <-]. cbn [negb andb existsb].
  unfold leads_to. rewrite eqb_reflx, is_prefix_refl. cbn.
  now destruct (components p).
Qed.

Lemma listed_makedirs_keeps (fs : list string) (p : string) (fs' : list string)
      (q : string) :
  listed_makedirs fs p = Ok fs' -> listed_exists fs q = true ->
  listed_exists fs' q = true.
Proof.
  unfold listed_makedirs, listed_exists.
  destruct (String.eqb p EmptyString); [discriminate|].
  destruct (_ && _); [discriminate|]. intros [= <-]. cbn [existsb].
  destruct (negb (String.eqb q EmptyString)); [|discriminate]. cbn [andb].
  destruct (components q); trivial. cbn [orb].
  intros ->. apply orb_true_r.
Qed.

#[export] Instance listed_fs : FileSystem (list string) := {|
  path_exists := listed_exists;
  makedirs := listed_makedirs;
  exists_empty := fun fs => eq_refl;
  makedirs_empty := fun fs => eq_refl;
  makedirs_exists := listed_makedirs_exists;
  makedirs_keeps := listed_makedirs_keeps
|}.

Module Example.

Definition lit (z : Z) : fterm := TLit (inject_Z z).

(** A network that answers a batch of n rows with n zeros in a
    column, on cuda:0. *)
Definition zero_net (x : @tensor fterm) : result (@tensor fterm) :=
  Ok {| t_shape := [hd 0 (t_shape x); 1];
        t_data := map (fun _ => lit 0) (seq 0 (hd 0 (t_shape x)));
        t_device := Cuda 0 |}.

(** The same answers as a flat vector of shape (n,). *)
Definition flat_net (x : @tensor fterm) : result (@tensor fterm) :=
  Ok {| t_shape := [hd 0 (t_shape x)];
        t_data := map (fun _ => lit 0) (seq 0 (hd 0 (t_shape x)));
        t_device := Cuda 0 |}.

Definition fib (n : Z) : list (list fterm) :=
  map (fun i => [lit (Z.of_nat i); lit 0; lit 1]) (seq 0 (Z.to_nat n)).

Lemma fib_count (n : Z) : (0 <= n)%Z -> Z.of_nat (length (fib n)) = n.
Proof. intros Hn. unfold fib. rewrite length_map, length_seq. lia. Qed.

Definition gpu_env : @Env fterm :=
  {| cuda_available := true;
     org_forward := zero_net;
     sol_forward := fun _ _ => Raise NetworkError;
     sample_fib_sphere := fib;
     fib_sphere_count := fib_count;
     hstack_of := fun _ => Raise ValueError |}.

Definition cpu_env : @Env fterm :=
  {| cuda_available := false;
     org_forward := zero_net;
     sol_forward := fun _ _ => Raise NetworkError;
     sample_fib_sphere := fib;
     fib_sphere_count := fib_count;
     hstack_of := fun _ => Raise ValueError |}.

(** The command line [--pretrained weights/armadillo.v2.pth] and
    defaults for the rest. *)
Definition base_args : @Args fterm :=
  {| pretrained := Some "weights/armadillo.v2.pth"%string;
     net := "OctreeSDF";
     jit := false;
     sol := false;
     lod := None;
     camera_origin := [lit (-3); lit 3; lit (-3)];
     camera_lookat := [lit 0; lit 0; lit 0];
     camera_fov := lit 30;
     img_dir := "_results/render_app/imgs";
     render_2d := false;
     exr := false;
     r360 := false;
     rsphere := false;
     sdf_grid := false;
     nb_poses := 64;
     cam_radius := lit 4;
     disable_aa := false;
     export := None;
     rotate := None;
     depth := lit 0 |}.

Definition with_flags (a : @Args fterm) (spin sphere grid write_exr : bool)
  : @Args fterm :=
  {| pretrained := pretrained a; net := net a; jit := jit a; sol := sol a;
     lod := lod a; camera_origin := camera_origin a;
     camera_lookat := camera_lookat a; camera_fov := camera_fov a;
     img_dir := img_dir a; render_2d := render_2d a; exr := write_exr;
     r360 := spin; rsphere := sphere; sdf_grid := grid;
     nb_poses := nb_poses a; cam_radius := cam_radius a;
     disable_aa := disable_aa a; export := export a; rotate := rotate a;
     depth := depth a |}.

Definition with_model (a : @Args fterm) (weights export_to : option string)
           (scripted use_sol : bool) : @Args fterm :=
  {| pretrained := weights; net := net a; jit := scripted; sol := use_sol;
     lod := lod a; camera_origin := camera_origin a;
     camera_lookat := camera_lookat a; camera_fov := camera_fov a;
     img_dir := img_dir a; render_2d := render_2d a; exr := exr a;
     r360 := r360 a; rsphere := rsphere a; sdf_grid := sdf_grid a;
     nb_poses := nb_poses a; cam_radius := cam_radius a;
     disable_aa := disable_aa a; export := export_to; rotate := rotate a;
     depth := depth a |}.

Definition with_view (a : @Args fterm) (poses : Z) (degrees : option fterm)
  : @Args fterm :=
  {| pretrained := pretrained a; net := net a; jit := jit a; sol := sol a;
     lod := lod a; camera_origin := camera_origin a;
     camera_lookat := camera_lookat a; camera_fov := camera_fov a;
     img_dir := img_dir a; render_2d := render_2d a; exr := exr a;
     r360 := r360 a; rsphere := rsphere a; sdf_grid := sdf_grid a;
     nb_poses := poses; cam_radius := cam_radius a;
     disable_aa := disable_aa a; export := export a; rotate := degrees;
     depth := depth a |}.

(** A batch of two points. *)
Definition two_points : @tensor fterm :=
  {| t_shape := [2; 3];
     t_data := [lit 1; lit 2; lit 3; lit 4; lit 5; lit 6];
     t_device := Cuda 0 |}.

(** The weights file of the examples. *)
Definition example_weights : string := "weights/armadillo.v2.pth".

(** [--pretrained weights/armadillo.v2.pth --r360 --rotate 45] *)
Definition spin_args : @Args fterm :=
  with_view (with_flags base_args true false false false)
                    64 (Some (lit 45)).

(** [--pretrained ... --rsphere --sdf_grid --exr] *)
Definition sphere_args : @Args fterm :=
  with_flags base_args false true true true.

(** [--pretrained ... --sdf_grid] *)
Definition grid_args : @Args fterm :=
  with_flags base_args false false true false.

(** [--pretrained ... --r360 --sol] *)
Definition sol_args : @Args fterm :=
  with_model spin_args (Some example_weights) None false true.

(** [--pretrained ... --r360 --jit] *)
Definition jit_args : @Args fterm :=
  with_model spin_args (Some example_weights) None true false.


(** [--export model.sol], no weights. *)
Definition export_no_weights_args : @Args fterm :=
  with_model base_args None (Some "model.sol"%string) false false.

(** [--pretrained ... --export model.sol] *)
Definition export_args : @Args fterm :=
  with_model base_args (Some example_weights)
                     (Some "model.sol"%string) false false.

End Example.

(** ** Vocabulary of the further properties *)

From Stdlib Require DecimalN.

(** [int(s)] for a string of decimal digits. *)
Definition int_of_digits (s : string) : option Z :=
  option_map (fun d => Z.of_N (N.of_uint d)) (NilEmpty.uint_of_string s).

Section FurtherVocabulary.
Context {F : Type} {ops : FloatOps F}.
Context {FS : Type} {fsys : FileSystem FS}.
Local Abbreviation tensor := (@tensor F).
Local Abbreviation Args := (@Args F).
Local Abbreviation Env := (@Env F).
Local Abbreviation event := (@event F).

(** Whether [x[:, 0]], [x[:, 1]] and [x[:, 2]] all exist: at least two
    dimensions, the second of size three or more. *)
Definition has_three_columns (x : tensor) : bool :=
  match t_shape x with
  | _ :: m :: _ => (3 <=? m)%nat
  | _ => false
  end.

(** Entry [(i, k)] of a batch of [m] columns. *)
Definition entry_of (m : nat) (x : tensor) (i k : nat) : F :=
  nth (i * m + k) (t_data x) fdefault.

(** The gyroid column that [forward] hands to [torch.max] for a batch
    of [n] rows of [m] columns (lines 71-75). *)
Definition gyroid_column (x : tensor) (n m : nat) : tensor :=
  tabulate [n; 1] (Cuda 0)
           (fun i => to_float32 (gyroid_value (entry_of m x i 0) (entry_of m x i 1)
                                              (entry_of m x i 2))).

(** The file system that the run leaves. *)
Definition dirs_after (env : Env) (args : Args) (fs : FS) : FS :=
  snd (fst (run env args fs)).

(** The directories of lines 150-157: the instance directory and its
    three subdirectories. *)
Definition output_dirs (args : Args) (weights : string) : list string :=
  ins_dir_of args weights
  :: map (os_path_join (ins_dir_of args weights)) ["normal"; "rgb"; "exr"]%string.

Definition set_lods (tr : list event) : list (module * Z) :=
  flat_map (fun e => match e with ESetLod m l => [(m, l)] | _ => [] end) tr.

Definition png_paths (tr : list event) : list string :=
  map (fun x => fst (fst x)) (saved_pngs tr).

Definition exr_paths (tr : list event) : list string :=
  map fst (written_exrs tr).


(** The events of the modes, as opposed to those of lines 123-159. *)
Definition mode_event (e : event) : Prop :=
  match e with
  | EConstructNet _ | EJitScript _ | ELoadStateDict _ | EToDevice _ _
  | EPrintParameters _ | ESolSave _ _ | ESetLod _ _ | EMakedirs _
  | ERenderer _ _ | EEnter _ => False
  | _ => True
  end.

(** The events of a mode that evaluates the network itself. *)
Definition evaluation_event (e : event) : Prop :=
  match e with
  | EPrint _ | EPrintShape _ _ | EPrintTensor _ | EEval _ | ENetCall _ _ _
  | ESaveTxt _ _ | EMarch _ _ | EGetMesh | ESaveMesh _ => True
  | _ => False
  end.

(** Sample [n] of [np.linspace(start, stop, 150)]. *)
Definition axis_sample (start stop : Q) (n : nat) : F :=
  nth n (np_linspace (flit start) (flit stop) 150) fdefault.

End FurtherVocabulary.

(** ** Further inputs, on the free interpretation *)

Module Inputs.

(** A network that answers every batch with a column of three rows. *)
Definition three_rows_net (x : @tensor fterm) : result (@tensor fterm) :=
  Ok {| t_shape := [3; 1];
        t_data := [Example.lit 0; Example.lit 0; Example.lit 0];
        t_device := Cuda 0 |}.

(** A network that answers on the CPU. *)
Definition cpu_net (x : @tensor fterm) : result (@tensor fterm) :=
  Ok {| t_shape := [hd 0 (t_shape x); 1];
        t_data := map (fun _ => Example.lit 0) (seq 0 (hd 0 (t_shape x)));
        t_device := Cpu |}.

(** Two points in the plane. *)
Definition two_columns : @tensor fterm :=
  {| t_shape := [2; 2];
     t_data := [Example.lit 1; Example.lit 2; Example.lit 3; Example.lit 4];
     t_device := Cuda 0 |}.

(** One point with a fourth coordinate. *)
Definition four_columns : @tensor fterm :=
  {| t_shape := [1; 4];
     t_data := [Example.lit 1; Example.lit 2; Example.lit 3; Example.lit 4];
     t_device := Cuda 0 |}.

(** A network that raises. *)
Definition failing_net (x : @tensor fterm) : result (@tensor fterm) :=
  Raise NetworkError.

(** [--pretrained weights/armadillo.v2.pth --sol] *)
Definition sol_default_args : @Args fterm :=
  Example.with_model Example.base_args (Some Example.example_weights) None
                     false true.

(** A weights file without a name before the dot. *)
Definition hidden_weights : string := "weights/.pth".

Definition with_img_dir (a : @Args fterm) (dir : string) : @Args fterm :=
  {| pretrained := pretrained a; net := net a; jit := jit a; sol := sol a;
     lod := lod a; camera_origin := camera_origin a;
     camera_lookat := camera_lookat a; camera_fov := camera_fov a;
     img_dir := dir; render_2d := render_2d a; exr := exr a;
     r360 := r360 a; rsphere := rsphere a; sdf_grid := sdf_grid a;
     nb_poses := nb_poses a; cam_radius := cam_radius a;
     disable_aa := disable_aa a; export := export a; rotate := rotate a;
     depth := depth a |}.


(** [--pretrained weights/.pth --img-dir ''], the default mode. *)
Definition no_dir_args : @Args fterm :=
  with_img_dir (Example.with_model Example.base_args (Some hidden_weights) None
                                   false false)
               EmptyString.

End Inputs.
(** ** Facts about shapes, broadcasting and indexing *)

Lemma device_eqb_refl (d : device) : device_eqb d d = true.
Proof. destruct d; simpl; auto using Nat.eqb_refl. Qed.

Lemma numel_app (a b : list nat) : numel (a ++ b) = numel a * numel b.
Proof.
  unfold numel. induction a as [|x a IH]; simpl.
  - lia.
  - rewrite IH. lia.
Qed.

Lemma numel_rev (s : list nat) : numel (rev s) = numel s.
Proof.
  induction s as [|x s IH]; simpl; trivial.
  rewrite numel_app, IH. simpl. lia.
Qed.

Lemma broadcast_rev_same (s : list nat) : broadcast_rev s s = Some s.
Proof.
  induction s as [|x s IH]; simpl; trivial.
  now rewrite IH, Nat.eqb_refl.
Qed.

Lemma broadcast_shapes_same (s : list nat) : broadcast_shapes s s = Some s.
Proof.
  unfold broadcast_shapes. rewrite broadcast_rev_same. simpl.
  now rewrite rev_involutive.
Qed.

(** Against its own shape an operand is read in place. *)
Lemma src_index_rev_same (s : list nat) :
  forall idx stride, idx < numel s -> src_index_rev s s idx stride = idx * stride.
Proof.
  induction s as [|r s IH]; intros idx stride Hlt; simpl in *.
  - assert (idx = 0) by lia. subst. reflexivity.
  - assert (Hr : r <> 0) by (intros ->; simpl in Hlt; lia).
    assert (Hq : idx / r < numel s).
    { apply Nat.Div0.div_lt_upper_bound. exact Hlt. }
    rewrite (IH _ _ Hq).
    pose proof (Nat.div_mod_eq idx r) as Hdm.
    destruct (Nat.eqb_spec r 1) as [->|Hne].
    + rewrite Nat.div_1_r. lia.
    + nia.
Qed.

Lemma src_index_same (s : list nat) (idx : nat) :
  idx < numel s -> src_index s s idx = idx.
Proof.
  intros Hlt. unfold src_index.
  rewrite src_index_rev_same by now rewrite numel_rev.
  lia.
Qed.

Lemma firstn_1_skipn {A} (l : list A) (j : nat) (d : A) :
  j < length l -> firstn 1 (skipn j l) = [nth j l d].
Proof.
  revert j. induction l as [|a l IH]; intros j Hj; simpl in Hj.
  - lia.
  - destruct j as [|j]; simpl.
    + reflexivity.
    + apply IH. lia.
Qed.

Lemma flat_map_singleton {A B} (f : A -> B) (l : list A) :
  flat_map (fun a => [f a]) l = map f l.
Proof. induction l; simpl; congruence. Qed.

Lemma nth_map_seq {A} (g : nat -> A) (n i : nat) (d : A) :
  i < n -> nth i (map g (seq 0 n)) d = g i.
Proof.
  intros Hi. rewrite (nth_indep _ d (g 0)) by now rewrite length_map, length_seq.
  rewrite map_nth. now rewrite seq_nth.
Qed.

Section TensorFacts.
Context {F : Type} {ops : FloatOps F}.
Local Abbreviation tensor := (@tensor F).

Lemma tmap_tabulate (f : F -> F) shape dev g :
  tmap f (tabulate shape dev g) = tabulate shape dev (fun i => f (g i)).
Proof. unfold tmap, tabulate. simpl. now rewrite map_map. Qed.

Lemma binary_op_same_shape (f : F -> F -> F) (a b : tensor) :
  t_device a = t_device b ->
  t_shape a = t_shape b ->
  binary_op f a b =
  Ok (tabulate (t_shape a) (t_device a)
               (fun i => f (nth i (t_data a) fdefault) (nth i (t_data b) fdefault))).
Proof.
  intros Hd Hs. unfold binary_op.
  rewrite <- Hd, device_eqb_refl, <- Hs, broadcast_shapes_same.
  unfold tabulate. do 2 f_equal.
  apply map_ext_in. intros i Hi. apply in_seq in Hi.
  rewrite src_index_same by lia. reflexivity.
Qed.

Lemma binary_op_tabulate (f : F -> F -> F) shape dev g h :
  binary_op f (tabulate shape dev g) (tabulate shape dev h) =
  Ok (tabulate shape dev (fun i => f (g i) (h i))).
Proof.
  rewrite binary_op_same_shape by reflexivity.
  unfold tabulate. simpl. do 2 f_equal.
  apply map_ext_in. intros i Hi. apply in_seq in Hi.
  now rewrite !nth_map_seq by lia.
Qed.

(** Column [k] of a well-formed batch of shape (n, 3). *)
Lemma select_column_batch (x : tensor) (n k : nat) :
  t_shape x = [n; 3] -> well_formed x -> k < 3 ->
  select_column x k = Ok (tabulate [n] (t_device x) (fun i => entry x i k)).
Proof.
  intros Hs Hwf Hk. unfold select_column, well_formed in *.
  rewrite Hs in *. simpl in Hwf.
  destruct (Nat.ltb_spec k 3) as [_|]; [|lia].
  unfold tabulate. simpl. do 2 f_equal.
  rewrite Nat.mul_1_r.
  rewrite <- flat_map_singleton, !flat_map_concat_map. f_equal.
  apply map_ext_in. intros i Hi. apply in_seq in Hi.
  rewrite Nat.mul_1_r. unfold entry.
  apply firstn_1_skipn. lia.
Qed.

Lemma gyroid_field_batch (x : tensor) (n : nat) :
  t_shape x = [n; 3] -> well_formed x ->
  gyroid_field x =
  Ok (tabulate [n] (t_device x)
        (fun i => gyroid_value (entry x i 0) (entry x i 1) (entry x i 2))).
Proof.
  intros Hs Hwf. unfold gyroid_field.
  rewrite !(select_column_batch Hs Hwf) by lia.
  unfold phase, torch_cos, torch_sin, scalar_mul, div_scalar, sub_scalar,
    tensor_mul, tensor_add.
  cbn [rbind].
  repeat (rewrite ?tmap_tabulate, ?binary_op_tabulate; cbn [rbind]).
  reflexivity.
Qed.

(** What [forward] returns on a batch of shape (n, 3) when CUDA is
    there and the wrapped network returns an (n, 1) tensor on cuda:0. *)
Lemma forward_batch (sdf_net : tensor -> result tensor) (x s : tensor) (n : nat) :
  t_shape x = [n; 3] -> well_formed x ->
  sdf_net x = Ok s -> t_shape s = [n; 1] -> t_device s = Cuda 0 ->
  forward true sdf_net x =
  Ok (tabulate [n; 1] (Cuda 0)
        (fun i => fmax (to_float32 (gyroid_value (entry x i 0) (entry x i 1)
                                                 (entry x i 2)))
                       (nth i (t_data s) fdefault))).
Proof.
  intros Hs Hwf Hnet Hss Hsd. unfold forward.
  rewrite (gyroid_field_batch Hs Hwf), Hnet. cbn [rbind torch_tensor_cuda0].
  unfold torch_max. rewrite binary_op_same_shape.
  - cbn [reshape_m1_1 tabulate t_shape t_data t_device numel fold_right].
    rewrite Nat.mul_1_r. unfold tabulate. do 2 f_equal.
    apply map_ext_in. intros i Hi. apply in_seq in Hi.
    cbn [numel fold_right] in Hi.
    rewrite map_map, nth_map_seq by lia. reflexivity.
  - now rewrite Hsd.
  - rewrite Hss. cbn. now rewrite Nat.mul_1_r.
Qed.


End TensorFacts.

(** ** Facts about splitting and the model name *)

Lemma append_empty_r (s : string) : (s ++ EmptyString)%string = s.
Proof. induction s; simpl; congruence. Qed.

Lemma append_assoc' (a b c : string) :
  ((a ++ b) ++ c)%string = (a ++ (b ++ c))%string.
Proof. induction a; simpl; congruence. Qed.

Lemma contains_char_app (c : ascii) (a b : string) :
  contains_char c (a ++ b) = orb (contains_char c a) (contains_char c b).
Proof.
  induction a as [|x a IH]; simpl; trivial.
  rewrite IH. now rewrite orb_assoc.
Qed.

Lemma split_on_nonempty (sep : ascii) (s : string) : split_on sep s <> [].
Proof.
  destruct s as [|c s]; simpl; try discriminate.
  destruct (Ascii.eqb c sep); try discriminate.
  destruct (split_on sep s); discriminate.
Qed.

(** Joining the pieces gives the string back. *)
Lemma split_on_join (sep : ascii) (s : string) :
  join_with sep (split_on sep s) = s.
Proof.
  induction s as [|c s IH]; simpl; trivial.
  destruct (Ascii.eqb_spec c sep) as [->|Hne].
  - simpl. destruct (split_on sep s) as [|h t] eqn:E.
    + now apply split_on_nonempty in E.
    + simpl in *. now rewrite IH.
  - destruct (split_on sep s) as [|h t] eqn:E.
    + now apply split_on_nonempty in E.
    + simpl in *. now rewrite IH.
Qed.

(** No piece contains the separator. *)
Lemma split_on_pieces (sep : ascii) (s : string) :
  Forall (fun piece => contains_char sep piece = false) (split_on sep s).
Proof.
  induction s as [|c s IH]; simpl.
  - repeat constructor.
  - destruct (Ascii.eqb_spec c sep) as [->|Hne].
    + constructor; trivial.
    + destruct (split_on sep s) as [|h t] eqn:E.
      * now apply split_on_nonempty in E.
      * inversion IH as [|? ? Hh Ht]; subst. constructor; trivial.
        simpl. rewrite Hh.
        destruct (Ascii.eqb_spec c sep); [contradiction|reflexivity].
Qed.

Lemma ends_with_slash_app (a : string) :
  ends_with_slash (a ++ "/") = true.
Proof.
  induction a as [|c a IH]; simpl; trivial.
  destruct (a ++ "/")%string eqn:E; trivial.
  destruct a; discriminate.
Qed.

(** A joined list is what precedes its last piece, then that piece; what
    precedes is empty or ends with the separator. *)
Lemma join_with_last (l : list string) :
  l <> [] ->
  exists dir, join_with "/" l = (dir ++ last l EmptyString)%string /\
              (dir = EmptyString \/ ends_with_slash dir = true).
Proof.
  destruct l as [|h t]; [congruence|intros _].
  revert h. induction t as [|x t IH]; intros h.
  - exists EmptyString. simpl. rewrite append_empty_r. auto.
  - destruct (IH x) as (dir & Hj & Hd).
    exists (h ++ String "/" dir)%string. split.
    + change (last (h :: x :: t) EmptyString) with (last (x :: t) EmptyString).
      rewrite append_assoc'. simpl in *. now rewrite Hj.
    + right. destruct Hd as [->|Hd].
      * apply ends_with_slash_app.
      * clear -Hd. induction h as [|c h IHh]; simpl.
        -- destruct dir; [discriminate|exact Hd].
        -- destruct (h ++ String "/" dir)%string eqn:E; trivial.
           destruct h; discriminate.
Qed.

Lemma last_in {A} (l : list A) (d : A) : l <> [] -> In (last l d) l.
Proof.
  induction l as [|a l IH]; [congruence|intros _].
  destruct l as [|b l]; [now left|].
  right. apply IH. discriminate.
Qed.

(** The model name within the path: the name is the head of the final
    component, up to the first '.' of that component. *)
Lemma model_name_in_path (path : string) :
  exists dir ext,
    path = (dir ++ model_name path ++ ext)%string /\
    (dir = EmptyString \/ ends_with_slash dir = true) /\
    (ext = EmptyString \/ exists e, ext = String "." e) /\
    contains_char "/" (model_name path ++ ext) = false /\
    contains_char "." (model_name path) = false.
Proof.
  unfold model_name.
  set (comp := last (split_on "/" path) EmptyString).
  destruct (join_with_last (split_on_nonempty "/" path)) as (dir & Hj & Hd).
  rewrite split_on_join in Hj. fold comp in Hj.
  assert (Hc : contains_char "/" comp = false).
  { pose proof (split_on_pieces "/" path) as Hall.
    rewrite Forall_forall in Hall. apply Hall.
    apply last_in, split_on_nonempty. }
  pose proof (split_on_join "." comp) as Hjc.
  pose proof (split_on_pieces "." comp) as Hpc.
  destruct (split_on "." comp) as [|h t] eqn:E.
  { now apply split_on_nonempty in E. }
  simpl in Hjc. simpl hd.
  exists dir, (fold_right (fun x acc => String "." (x ++ acc)) EmptyString t)%string.
  repeat split; trivial.
  - now rewrite Hjc.
  - destruct t; simpl; eauto.
  - now rewrite Hjc.
  - now inversion Hpc.
Qed.

(** ** Facts about computations of the script *)

Lemma Qfloor_inject_Z (z : Z) : math_floor (inject_Z z) = z.
Proof. unfold math_floor. apply Qfloor_Z. Qed.

Lemma flat_map_flat_map {A B C} (f : B -> list C) (g : A -> list B) (l : list A) :
  flat_map f (flat_map g l) = flat_map (fun a => flat_map f (g a)) l.
Proof.
  induction l as [|a l IH]; simpl; trivial.
  now rewrite flat_map_app, IH.
Qed.

Section RunFacts.
Context {F : Type} {ops : FloatOps F}.
Context {FS : Type} {fsys : FileSystem FS}.
Local Abbreviation tensor := (@tensor F).
Local Abbreviation Args := (@Args F).
Local Abbreviation Env := (@Env F).
Local Abbreviation M := (@M F FS).
Local Abbreviation matrix := (@matrix F).
Local Abbreviation shade_call := (@shade_call F).
Local Abbreviation event := (@event F).

Local Open Scope script_scope.

(** *** The monad *)

Lemma bind_val {A B} (m : M A) (k : A -> M B) fs t1 fs1 a :
  m fs = (t1, fs1, Val a) ->
  bind m k fs = (let '(t2, fs2, o) := k a fs1 in (t1 ++ t2, fs2, o)).
Proof. intros E. unfold bind. now rewrite E. Qed.

Lemma bind_raised {A B} (m : M A) (k : A -> M B) fs t1 fs1 e :
  m fs = (t1, fs1, Raised e) -> bind m k fs = (t1, fs1, Raised e).
Proof. intros E. unfold bind. now rewrite E. Qed.

(** A loop whose body only emits events emits them item by item. *)
Lemma for_each_emits {A} (body : A -> M unit) (evs : A -> list event) (l : list A) :
  (forall x fs, body x fs = (evs x, fs, Val tt)) ->
  forall fs, for_each l body fs = (flat_map evs l, fs, Val tt).
Proof.
  intros Hbody. induction l as [|x l IH]; intros fs; simpl.
  - reflexivity.
  - unfold bind. now rewrite Hbody, IH.
Qed.

(** *** Making directories *)

Lemma ensure_dir_cases (path : string) (fs : FS) :
  ensure_dir (F:=F) path fs
  = if path_exists fs path then ([], fs, Val tt)
    else match makedirs fs path with
         | Ok fs' => ([EMakedirs path], fs', Val tt)
         | Raise e => ([], fs, Raised e)
         end.
Proof.
  unfold ensure_dir, bind, os_path_exists, when, os_makedirs, ret.
  destruct (path_exists fs path); cbn [negb]; trivial.
  now destruct (makedirs fs path).
Qed.

(** What a sequence of guarded [os.makedirs] calls does: it makes
    some of the paths, which did not exist, in order and once each;
    nothing that existed is lost; if it returns, all the paths exist;
    and in the state it leaves, the same sequence makes nothing. *)
Lemma ensure_all_run (paths : list string) :
  forall fs : FS,
  exists dirs fs' o,
    for_each paths (ensure_dir (F:=F)) fs = (map (@EMakedirs F) dirs, fs', o) /\
    (o = Val tt \/ exists e, o = Raised e) /\
    (forall p, In p dirs -> In p paths /\ path_exists fs p = false) /\
    NoDup dirs /\
    (forall q, path_exists fs q = true -> path_exists fs' q = true) /\
    (forall p, In p dirs -> path_exists fs' p = true) /\
    (o = Val tt -> forall p, In p paths -> path_exists fs' p = true) /\
    fst (fst (for_each paths (ensure_dir (F:=F)) fs')) = [].
Proof.
  induction paths as [|x l IH]; intros fs.
  - exists [], fs, (Val tt). cbn [for_each ret map].
    split; [reflexivity|]. split; [now left|].
    split; [intros p []|]. split; [constructor|].
    split; [trivial|]. split; [intros p []|].
    split; [intros _ p []|reflexivity].
  - cbn [for_each]. unfold bind at 1. rewrite ensure_dir_cases.
    destruct (path_exists fs x) eqn:Ex.
    + destruct (IH fs) as (dirs & fs' & o & E & Ho & Hd & Hn & Hk & Hm & Hv & Hi).
      exists dirs, fs', o. rewrite E. cbn [app].
      split; [reflexivity|]. split; [exact Ho|].
      split; [intros p Hp; destruct (Hd p Hp); split; [now right|assumption]|].
      split; [exact Hn|]. split; [exact Hk|]. split; [exact Hm|].
      split.
      * intros Hval p [<-|Hp]; [now apply Hk|now apply Hv].
      * unfold bind at 1. rewrite ensure_dir_cases, (Hk x Ex).
        destruct (for_each l (ensure_dir (F:=F)) fs') as [[t2 f2] o2].
        cbn [fst] in *. now rewrite Hi.
    + destruct (makedirs fs x) as [fs1|e] eqn:Em.
      * destruct (IH fs1) as (dirs & fs' & o & E & Ho & Hd & Hn & Hk & Hm & Hv & Hi).
        pose proof (makedirs_exists fs x Em) as Hx.
        exists (x :: dirs), fs', o. rewrite E. cbn [app map].
        split; [reflexivity|]. split; [exact Ho|].
        split.
        { intros p [<-|Hp]; [split; [now left|assumption]|].
          destruct (Hd p Hp) as [Hin Hf]. split; [now right|].
          destruct (path_exists fs p) eqn:Ep; trivial.
          rewrite (makedirs_keeps fs x p Em Ep) in Hf. discriminate. }
        split.
        { constructor; [|exact Hn]. intros Hin.
          destruct (Hd x Hin) as [_ Hf]. congruence. }
        split; [intros q Hq; apply Hk; exact (makedirs_keeps fs x q Em Hq)|].
        split; [intros p [<-|Hp]; [now apply Hk|now apply Hm]|].
        split.
        { intros Hval p [<-|Hp]; [now apply Hk|now apply Hv]. }
        { unfold bind at 1. rewrite ensure_dir_cases, (Hk x Hx).
          destruct (for_each l (ensure_dir (F:=F)) fs') as [[t2 f2] o2].
          cbn [fst] in *. now rewrite Hi. }
      * exists [], fs, (Raised e). cbn [map].
        split; [reflexivity|]. split; [right; now exists e|].
        split; [intros p []|]. split; [constructor|].
        split; [trivial|]. split; [intros p []|].
        split; [discriminate|].
        unfold bind at 1. now rewrite ensure_dir_cases, Ex, Em.
Qed.

Lemma for_each_map {A B} (g : A -> B) (l : list A) (body : B -> M unit) :
  for_each (map g l) body = for_each l (fun t => body (g t)).
Proof. induction l as [|x l IH]; cbn [map for_each]; [|rewrite IH]; reflexivity. Qed.

(** Lines 150-157 make the instance directory and its three
    subdirectories, in this order. *)
Lemma make_output_dirs_all (ins_dir : string) :
  make_output_dirs (F:=F) (FS:=FS) ins_dir
  = for_each (ins_dir :: map (os_path_join ins_dir) ["normal"; "rgb"; "exr"]%string)
             (ensure_dir (F:=F)).
Proof. unfold make_output_dirs. cbn [for_each]. now rewrite for_each_map. Qed.

(** *** Properties of every event *)

Lemma trace_all_ret {A} (P : event -> Prop) (a : A) : trace_all P (ret a : M A).
Proof. intros fs. constructor. Qed.

Lemma trace_all_raise {A} (P : event -> Prop) (e : exn) :
  trace_all P (raise e : M A).
Proof. intros fs. constructor. Qed.

Lemma trace_all_exit {A} (P : event -> Prop) (c : Z) :
  trace_all P (sys_exit c : M A).
Proof. intros fs. constructor. Qed.

Lemma trace_all_lift {A} (P : event -> Prop) (r : result A) :
  trace_all P (lift r : M A).
Proof. intros fs. destruct r; constructor. Qed.

Lemma trace_all_emit (P : event -> Prop) (e : event) :
  P e -> trace_all P (emit e : M unit).
Proof. intros He fs. simpl. auto. Qed.

Lemma trace_all_bind {A B} (P : event -> Prop) (m : M A) (k : A -> M B) :
  trace_all P m -> (forall a, trace_all P (k a)) -> trace_all P (bind m k).
Proof.
  intros Hm Hk fs. unfold bind. specialize (Hm fs).
  destruct (m fs) as [[t1 fs1] [a|e|c]]; simpl in *; trivial.
  specialize (Hk a fs1). destruct (k a fs1) as [[t2 fs2] o]; simpl in *.
  apply Forall_app. auto.
Qed.

Lemma trace_all_bind_ret {A B} (P : event -> Prop) (a : A) (k : A -> M B) :
  trace_all P (k a) -> trace_all P (bind (ret a) k).
Proof.
  intros Hk fs. unfold bind, ret. specialize (Hk fs).
  now destruct (k a fs) as [[t2 fs2] o].
Qed.

Lemma trace_all_when (P : event -> Prop) (b : bool) (m : M unit) :
  trace_all P m -> trace_all P (when b m).
Proof. destruct b; simpl; auto using trace_all_ret. Qed.

Lemma trace_all_for_each {A} (P : event -> Prop) (l : list A) (body : A -> M unit) :
  (forall x, trace_all P (body x)) -> trace_all P (for_each l body).
Proof.
  intros Hb. induction l; simpl; auto using trace_all_ret, trace_all_bind.
Qed.

Lemma trace_all_ensure_dir (P : event -> Prop) (path : string) :
  P (EMakedirs path) -> trace_all P (ensure_dir path).
Proof.
  intros HP fs. rewrite ensure_dir_cases.
  destruct (path_exists fs path); [constructor|].
  destruct (makedirs fs path); cbn [fst]; auto.
Qed.

Lemma trace_all_make_output_dirs (P : event -> Prop) (ins_dir : string) :
  (forall p, P (EMakedirs p)) -> trace_all P (make_output_dirs (F:=F) ins_dir).
Proof.
  intros HP. unfold make_output_dirs. apply trace_all_bind.
  - now apply trace_all_ensure_dir.
  - intros _. apply trace_all_for_each. intros t. now apply trace_all_ensure_dir.
Qed.

End RunFacts.

(** Splits a computation into its steps and leaves the property of each
    emitted event. *)
Ltac trace_step :=
  cbv beta iota zeta;
  lazymatch goal with
  | |- trace_all _ (bind (ret _) _) => apply trace_all_bind_ret
  | |- trace_all _ (bind _ _) => apply trace_all_bind; [|intros ?]
  | |- trace_all _ (emit _) => apply trace_all_emit
  | |- trace_all _ (ret _) => apply trace_all_ret
  | |- trace_all _ (raise _) => apply trace_all_raise
  | |- trace_all _ (sys_exit _) => apply trace_all_exit
  | |- trace_all _ (lift _) => apply trace_all_lift
  | |- trace_all _ (when _ _) => apply trace_all_when
  | |- trace_all _ (for_each _ _) => apply trace_all_for_each; intros ?
  | |- trace_all _ (make_output_dirs _) =>
      apply trace_all_make_output_dirs; intros ?
  | |- trace_all _ (ensure_dir _) => apply trace_all_ensure_dir
  | |- trace_all _ (match ?x with _ => _ end) => destruct x
  end.

Ltac trace_steps := repeat trace_step.

(** ** Facts about the grids *)

Section GridFacts.
Context {F : Type} {ops : FloatOps F}.
Local Abbreviation tensor := (@tensor F).

Lemma length_np_linspace (start stop : F) (num : nat) :
  length (np_linspace start stop num) = num.
Proof. unfold np_linspace. now rewrite length_map, length_seq. Qed.

Lemma length_grid_points (Kx Ky Kz : list F) :
  length (grid_points Kx Ky Kz) = length Kx * length Ky * length Kz.
Proof.
  unfold grid_points. induction Kx as [|x Kx IH]; simpl; trivial.
  rewrite length_app, IH.
  assert (E : length (flat_map (fun y => map (fun z => (x, y, z)) Kz) Ky)
              = length Ky * length Kz).
  { clear. induction Ky as [|y Ky IH]; simpl; trivial.
    now rewrite length_app, length_map, IH. }
  rewrite E. lia.
Qed.

(** [np.linspace] with at least two samples is a uniform axis. *)
Lemma np_linspace_uniform (start stop : F) (num : nat) :
  2 <= num -> uniform_axis (np_linspace start stop num) start stop num.
Proof.
  intros Hn. unfold uniform_axis. split; [apply length_np_linspace|].
  unfold np_linspace.
  assert (E0 : (num - 1 =? 0) = false) by (apply Nat.eqb_neq; lia).
  assert (E1 : (1 <? num) = true) by (apply Nat.ltb_lt; lia).
  rewrite E0, E1. split.
  - intros i Hi. rewrite (nth_map_seq _ (n := num)) by lia.
    replace (i =? num - 1) with false by (symmetry; apply Nat.eqb_neq; lia).
    reflexivity.
  - rewrite (nth_map_seq _ (n := num)) by lia.
    now rewrite Nat.eqb_refl.
Qed.

Lemma length_points_data (pts : list (F * F * F)) :
  length (flat_map (fun '(x, y, z) => [x; y; z]) pts) = length pts * 3.
Proof.
  induction pts as [|[[x y] z] pts IH]; simpl; trivial.
  now rewrite IH.
Qed.

Lemma length_mesh_points : length (mesh_points (F:=F)) = 150 * 150 * 150.
Proof.
  unfold mesh_points. cbv zeta.
  now rewrite length_grid_points, !length_np_linspace.
Qed.

Lemma length_csv_points : length (csv_points (F:=F)) = 150 * 150 * 150.
Proof.
  unfold csv_points. cbv zeta.
  now rewrite length_grid_points, !length_np_linspace.
Qed.

Lemma mesh_points_uniform :
  exists Kx Ky Kz : list F,
    mesh_points = grid_points Kx Ky Kz /\
    uniform_axis Kx (flit (-1)%Q) (flit 1%Q) 150 /\
    uniform_axis Ky (flit (-0.3)%Q) (flit 0.5%Q) 150 /\
    uniform_axis Kz (flit (-0.3)%Q) (flit 0.8%Q) 150.
Proof.
  exists (np_linspace (flit (-1)%Q) (flit 1%Q) 150),
         (np_linspace (flit (-0.3)%Q) (flit 0.5%Q) 150),
         (np_linspace (flit (-0.3)%Q) (flit 0.8%Q) 150).
  split; [reflexivity|].
  split; [|split]; apply np_linspace_uniform; lia.
Qed.

Lemma csv_points_uniform :
  exists K : list F,
    csv_points = grid_points K K K /\
    uniform_axis K (flit (-1.1)%Q) (flit 1.1%Q) 150.
Proof.
  exists (np_linspace (flit (-1.1)%Q) (flit 1.1%Q) 150).
  split; [reflexivity|]. apply np_linspace_uniform; lia.
Qed.

Lemma batch_on_cuda_eq (float32 : bool) (pts : list (F * F * F)) :
  torch_tensor_cuda0 true float32 (np_array pts) = Ok (batch_on_cuda float32 pts).
Proof. reflexivity. Qed.

Lemma batch_on_cuda_well_formed (float32 : bool) (pts : list (F * F * F)) :
  well_formed (batch_on_cuda float32 pts).
Proof.
  unfold well_formed, batch_on_cuda. cbn [t_data t_shape numel fold_right].
  destruct float32; rewrite ?length_map, length_points_data; lia.
Qed.

Lemma mesh_batch_well_formed : well_formed mesh_batch.
Proof. apply batch_on_cuda_well_formed. Qed.

Lemma csv_batch_well_formed : well_formed csv_batch.
Proof. apply batch_on_cuda_well_formed. Qed.

Lemma mesh_batch_shape : t_shape mesh_batch = [150 * 150 * 150; 3].
Proof.
  unfold mesh_batch, batch_on_cuda. cbn [t_shape].
  now rewrite length_mesh_points.
Qed.

Lemma csv_batch_shape : t_shape csv_batch = [150 * 150 * 150; 3].
Proof.
  unfold csv_batch, batch_on_cuda. cbn [t_shape].
  now rewrite length_csv_points.
Qed.

(** A batch of rows of three is its own [reshape(-1, 3)]. *)
Lemma reshape_m1_3_batch (t : tensor) (n : nat) :
  t_shape t = [n; 3] -> reshape_m1_3 t = Ok t.
Proof.
  destruct t as [s d dev]. cbn [t_shape]. intros ->.
  unfold reshape_m1_3. cbn [t_shape t_data t_device numel fold_right].
  replace (n * (3 * 1)) with (n * 3) by lia.
  rewrite Nat.Div0.mod_mul, Nat.div_mul by discriminate.
  reflexivity.
Qed.

Lemma batch_on_cuda_reshape (float32 : bool) (pts : list (F * F * F)) :
  reshape_m1_3 (batch_on_cuda float32 pts) = Ok (batch_on_cuda float32 pts).
Proof. now apply (reshape_m1_3_batch _ (n := length pts)). Qed.

(** Two positional arguments: the call fails. *)
Lemma np_hstack_two_arguments (env : @Env F) (a b : @pyvalue F) :
  np_hstack env [a; b] = Raise TypeError.
Proof. reflexivity. Qed.

End GridFacts.

(** ** Facts about the modes and the script *)

Section ModeFacts.
Context {F : Type} {ops : FloatOps F}.
Context {FS : Type} {fsys : FileSystem FS}.
Local Abbreviation tensor := (@tensor F).
Local Abbreviation Args := (@Args F).
Local Abbreviation Env := (@Env F).
Local Abbreviation M := (@M F FS).
Local Abbreviation matrix := (@matrix F).
Local Abbreviation shade_call := (@shade_call F).
Local Abbreviation event := (@event F).

Local Open Scope script_scope.

Lemma run_r360_run (args : Args) (ins_dir : string) (mm : matrix) (fs : FS) :
  run_r360 args ins_dir mm fs
  = (flat_map (spin_events args ins_dir) (np_arange 0 360 10), fs, Val tt).
Proof.
  unfold run_r360. apply for_each_emits. intros angle fs'.
  cbn [bind emit app]. now rewrite Qfloor_inject_Z.
Qed.

Lemma enumerate_map {A B} (f : A -> B) (l : list A) :
  enumerate (map f l) = map (fun pv => (fst pv, f (snd pv))) (enumerate l).
Proof.
  unfold enumerate. rewrite length_map.
  generalize (map Z.of_nat (seq 0 (length l))). induction l as [|a l IH];
    intros [|i idx]; simpl; trivial.
  now rewrite IH.
Qed.

Lemma run_rsphere_run (env : Env) (args : Args) (ins_dir : string) (fs : FS) :
  run_rsphere env args ins_dir (rotate_matrix args) fs
  = (flat_map (sphere_events args ins_dir)
              (enumerate (sample_fib_sphere env (nb_poses args))), fs, Val tt).
Proof.
  unfold run_rsphere. cbv zeta. rewrite enumerate_map.
  set (mk := fun o : list F =>
               {| sc_f := o; sc_t := camera_lookat args;
                  sc_fv := camera_fov args; sc_aa := negb (disable_aa args);
                  sc_mm := rotate_matrix args |}).
  rewrite (for_each_emits _
             (fun po : Z * list F =>
                [EShadeImages (mk (snd po))]
                ++ (if exr args
                    then [EWriteExr (ins_dir ++ "/exr/" ++ format_06d (fst po)
                                     ++ ".exr") (mk (snd po))]
                    else [])
                ++ [ESavePng (ins_dir ++ "/normal/" ++ format_06d (fst po)
                              ++ ".png") Normal (mk (snd po))])).
  - do 2 f_equal.
    rewrite flat_map_concat_map, map_map, <- flat_map_concat_map.
    apply flat_map_ext. now intros [p v].
  - intros [p o] fs'. destruct (exr args); reflexivity.
Qed.

(** The grid mode: no run of it reaches [np.savetxt]. *)
Lemma run_sdf_grid_run (env : Env) (m : module) (fs : FS) :
  run_sdf_grid env m fs
  = if cuda_available env then
      match net_call env m csv_batch with
      | Ok sdf =>
          ([EPrintShape "shape of torch grid: " (t_shape csv_batch);
            EEval m; ENetCall m csv_batch false;
            EPrintShape "shape of sdf grid: " (t_shape sdf);
            EPrintTensor sdf], fs, Raised TypeError)
      | Raise e =>
          ([EPrintShape "shape of torch grid: " (t_shape csv_batch);
            EEval m; ENetCall m csv_batch false], fs, Raised e)
      end
    else ([], fs, Raised CudaUnavailable).
Proof.
  unfold run_sdf_grid, csv_batch. cbv zeta.
  generalize (csv_points (F:=F)). intros pts.
  destruct (cuda_available env).
  - rewrite batch_on_cuda_eq. cbn [lift bind ret emit app].
    destruct (net_call env m (batch_on_cuda false pts)) as [sdf|e].
    + cbn [lift bind ret emit app]. rewrite np_hstack_two_arguments.
      reflexivity.
    + reflexivity.
  - reflexivity.
Qed.

Lemma run_marching_cubes_run (env : Env) (m : module) (fs : FS) :
  run_marching_cubes env m fs
  = if cuda_available env then
      match net_call env m mesh_batch with
      | Ok sdf =>
          ([EPrint "[INFO] here it is"; EPrint "[INFO] sdf slice";
            ENetCall m mesh_batch true;
            EMarch (to_numpy mesh_batch) (to_numpy sdf);
            EGetMesh; ESaveMesh "./marched_gyroid.obj"], fs, Val tt)
      | Raise e =>
          ([EPrint "[INFO] here it is"; EPrint "[INFO] sdf slice";
            ENetCall m mesh_batch true], fs, Raised e)
      end
    else ([EPrint "[INFO] here it is"; EPrint "[INFO] sdf slice"], fs,
          Raised CudaUnavailable).
Proof.
  unfold run_marching_cubes, mesh_batch. cbv zeta.
  generalize (mesh_points (F:=F)). intros pts.
  destruct (cuda_available env).
  - rewrite batch_on_cuda_eq. cbn [lift bind ret emit app].
    rewrite batch_on_cuda_reshape. cbn [lift bind ret emit app].
    destruct (net_call env m (batch_on_cuda true pts)) as [sdf|e]; reflexivity.
  - reflexivity.
Qed.

(** A run with weights and without --export reaches the dispatch
    when its directories get made. *)
Lemma main_reaches_dispatch (env : Env) (args : Args) (weights : string) fs
      (dirs : list string) (fs1 : FS) :
  pretrained args = Some weights -> export args = None ->
  make_output_dirs (ins_dir_of args weights) fs
  = (map (@EMakedirs F) dirs, fs1, Val tt) ->
  main env args fs
  = (let '(tr, fs'', o) :=
       dispatch env args (net_of args weights) (ins_dir_of args weights)
                (rotate_matrix args) fs1 in
     (prelude_events env args weights dirs ++ tr, fs'', o)).
Proof.
  intros Hp Hex E.
  unfold main, prelude_events, setup_events, lod_events, rotate_matrix, net_of,
    org_net_of, ins_dir_of, picked_device in *.
  rewrite Hp, Hex.
  destruct (jit args), (lod args);
    cbn [bind emit ret when app];
    rewrite (bind_val _ _ _ E);
    cbn [bind emit ret when app];
    match goal with
    | |- context [dispatch ?a ?b ?c ?d ?e ?f] =>
        destruct (dispatch a b c d e f) as [[tr fs''] o]
    end;
    cbn [app]; rewrite <- ?app_assoc;
    reflexivity.
Qed.

(** It ends at line 152 or 157 when [os.makedirs] raises. *)
Lemma main_stops_at_dirs (env : Env) (args : Args) (weights : string) fs
      (dirs : list string) (fs1 : FS) (e : exn) :
  pretrained args = Some weights -> export args = None ->
  make_output_dirs (ins_dir_of args weights) fs
  = (map (@EMakedirs F) dirs, fs1, Raised e) ->
  main env args fs
  = (setup_events env args weights ++ lod_events args weights
     ++ map (@EMakedirs F) dirs, fs1, Raised e).
Proof.
  intros Hp Hex E.
  unfold main, setup_events, lod_events, net_of, org_net_of, ins_dir_of,
    picked_device in *.
  rewrite Hp, Hex.
  destruct (jit args), (lod args);
    cbn [bind emit ret when app];
    rewrite (bind_raised _ _ _ E);
    reflexivity.
Qed.

(** What lines 150-157 do, from any file system. *)
Lemma make_output_dirs_run (ins_dir : string) (fs : FS) :
  exists dirs fs1 o,
    make_output_dirs ins_dir fs = (map (@EMakedirs F) dirs, fs1, o) /\
    (o = Val tt \/ exists e, o = Raised e).
Proof.
  rewrite make_output_dirs_all.
  destruct (ensure_all_run (F:=F)
              (ins_dir :: map (os_path_join ins_dir) ["normal"; "rgb"; "exr"]%string)
              fs) as (dirs & fs1 & o & E & Ho & _).
  now exists dirs, fs1, o.
Qed.

Lemma dispatch_run (env : Env) (args : Args) (m : module) (ins_dir : string)
      (mm : matrix) (fs : FS) :
  dispatch env args m ins_dir mm fs
  = (let '(tr, fs', o) :=
       match mode_by_priority args with
       | Spin360 => run_r360 args ins_dir mm fs
       | SphereViews => run_rsphere env args ins_dir mm fs
       | SdfGrid => run_sdf_grid env m fs
       | MarchingCubes => run_marching_cubes env m fs
       end in
     (EEnter (mode_by_priority args) :: tr, fs', o)).
Proof.
  unfold dispatch, mode_by_priority.
  destruct (r360 args); [|destruct (rsphere args); [|destruct (sdf_grid args)]];
    unfold bind at 1; cbn [emit];
    match goal with |- context [match ?r with _ => _ end] =>
      destruct r as [[tr fs'] o] end; reflexivity.
Qed.

End ModeFacts.

(** ** Facts about whole runs *)

Section WholeRuns.
Context {F : Type} {ops : FloatOps F}.
Context {FS : Type} {fsys : FileSystem FS}.
Local Abbreviation tensor := (@tensor F).
Local Abbreviation Args := (@Args F).
Local Abbreviation Env := (@Env F).
Local Abbreviation M := (@M F FS).
Local Abbreviation matrix := (@matrix F).
Local Abbreviation shade_call := (@shade_call F).
Local Abbreviation event := (@event F).

Local Open Scope script_scope.

(** Without weights the assertion of line 121 ends the run at once. *)
Lemma run_without_weights (env : Env) (args : Args) (fs : FS) :
  pretrained args = None -> run env args fs = ([], fs, Raised AssertionError).
Proof. intros Hp. unfold run, main. now rewrite Hp. Qed.

(** With --export the run ends at line 141. *)
Lemma run_export (env : Env) (args : Args) (weights path : string) (fs : FS) :
  pretrained args = Some weights -> export args = Some path ->
  run env args fs
  = (setup_events env args weights
     ++ [ESolSave (SOL_NGLOD (GyroidLattice (org_net_of args weights))) path],
     fs, Exited 0).
Proof.
  intros Hp Hex. unfold run, main, setup_events, org_net_of, picked_device.
  rewrite Hp, Hex. now destruct (jit args).
Qed.

Lemma made_dirs_makedirs (dirs : list string) :
  made_dirs (map (@EMakedirs F) dirs) = dirs.
Proof. induction dirs as [|d dirs IH]; simpl; congruence. Qed.

(** The run past the directories: the prelude, then the branch that
    the flags select. *)
Lemma run_past_dirs (env : Env) (args : Args) (weights : string) (fs : FS) :
  pretrained args = Some weights -> export args = None ->
  output_dirs_made args weights fs ->
  let r := run_mode env args weights (dirs_state args weights fs) in
  run env args fs
  = (prelude_events env args weights (dirs_made args weights fs)
     ++ EEnter (mode_by_priority args) :: fst (fst r),
     snd (fst r), snd r).
Proof.
  intros Hp Hex Hd r. subst r.
  unfold output_dirs_made, dirs_made, dirs_state, run_mode in *.
  destruct (make_output_dirs_run (F:=F) (ins_dir_of args weights) fs)
    as (dirs & fs1 & o & E & _).
  rewrite E in *. cbn [fst snd] in *. subst o.
  rewrite made_dirs_makedirs. unfold run.
  rewrite (main_reaches_dispatch env args fs dirs Hp Hex E), dispatch_run.
  destruct (mode_by_priority args);
    match goal with
    | |- context [fst (fst ?r)] => destruct r as [[tr fs''] o]
    end; reflexivity.
Qed.

(** The run that stops at the directories. *)
Lemma run_stopped (env : Env) (args : Args) (weights : string) (fs : FS) :
  pretrained args = Some weights -> export args = None ->
  ~ output_dirs_made args weights fs ->
  exists e,
    run env args fs
    = (setup_events env args weights ++ lod_events args weights
       ++ map (@EMakedirs F) (dirs_made args weights fs),
       dirs_state args weights fs, Raised e).
Proof.
  intros Hp Hex Hd.
  unfold output_dirs_made, dirs_made, dirs_state in *.
  destruct (make_output_dirs_run (F:=F) (ins_dir_of args weights) fs)
    as (dirs & fs1 & o & E & [->|[e ->]]).
  - rewrite E in Hd. now contradiction Hd.
  - exists e. rewrite E. cbn [fst snd]. rewrite made_dirs_makedirs. unfold run.
    exact (main_stops_at_dirs env args fs dirs Hp Hex E).
Qed.

Lemma output_dirs_made_dec (args : Args) (weights : string) (fs : FS) :
  output_dirs_made args weights fs \/ ~ output_dirs_made args weights fs.
Proof.
  unfold output_dirs_made.
  destruct (make_output_dirs_run (F:=F) (ins_dir_of args weights) fs)
    as (dirs & fs1 & o & E & [->|[e ->]]); rewrite E; cbn [snd].
  - now left.
  - right. discriminate.
Qed.

Lemma run_by_mode (env : Env) (args : Args) (weights : string) (fs : FS) :
  pretrained args = Some weights -> export args = None ->
  output_dirs_made args weights fs ->
  exists dirs fs',
    run env args fs
    = (let '(tr, fs'', o) :=
         match mode_by_priority args with
         | Spin360 =>
             run_r360 args (ins_dir_of args weights) (rotate_matrix args) fs'
         | SphereViews =>
             run_rsphere env args (ins_dir_of args weights) (rotate_matrix args) fs'
         | SdfGrid => run_sdf_grid env (net_of args weights) fs'
         | MarchingCubes => run_marching_cubes env (net_of args weights) fs'
         end in
       (prelude_events env args weights dirs
        ++ EEnter (mode_by_priority args) :: tr, fs'', o)).
Proof.
  intros Hp Hex Hd.
  exists (dirs_made args weights fs), (dirs_state args weights fs).
  rewrite (@run_past_dirs env args weights fs Hp Hex Hd). unfold run_mode.
  now destruct (mode_by_priority args);
    match goal with |- context [fst (fst ?r)] => destruct r as [[tr fs''] o] end.
Qed.

(** *** What the prelude contains *)

Lemma flat_map_makedirs {B} (f : event -> list B) (dirs : list string) :
  (forall p, f (EMakedirs p) = []) -> flat_map f (map (@EMakedirs F) dirs) = [].
Proof.
  intros Hf. induction dirs as [|d dirs IH]; simpl; trivial.
  now rewrite Hf, IH.
Qed.


Lemma shade_calls_prelude (env : Env) (args : Args) (weights : string) (dirs : list string) :
  shade_calls (prelude_events env args weights dirs) = [].
Proof.
  unfold shade_calls, prelude_events, setup_events, lod_events.
  rewrite !flat_map_app, flat_map_makedirs by reflexivity.
  now destruct (jit args), (lod args).
Qed.

Lemma saved_pngs_prelude (env : Env) (args : Args) (weights : string) (dirs : list string) :
  saved_pngs (prelude_events env args weights dirs) = [].
Proof.
  unfold saved_pngs, prelude_events, setup_events, lod_events.
  rewrite !flat_map_app, flat_map_makedirs by reflexivity.
  now destruct (jit args), (lod args).
Qed.

Lemma written_exrs_prelude (env : Env) (args : Args) (weights : string) (dirs : list string) :
  written_exrs (prelude_events env args weights dirs) = [].
Proof.
  unfold written_exrs, prelude_events, setup_events, lod_events.
  rewrite !flat_map_app, flat_map_makedirs by reflexivity.
  now destruct (jit args), (lod args).
Qed.

Lemma net_calls_prelude (env : Env) (args : Args) (weights : string) (dirs : list string) :
  net_calls (prelude_events env args weights dirs) = [].
Proof.
  unfold net_calls, prelude_events, setup_events, lod_events.
  rewrite !flat_map_app, flat_map_makedirs by reflexivity.
  now destruct (jit args), (lod args).
Qed.

Lemma marches_prelude (env : Env) (args : Args) (weights : string) (dirs : list string) :
  marches (prelude_events env args weights dirs) = [].
Proof.
  unfold marches, prelude_events, setup_events, lod_events.
  rewrite !flat_map_app, flat_map_makedirs by reflexivity.
  now destruct (jit args), (lod args).
Qed.

Lemma saved_meshes_prelude (env : Env) (args : Args) (weights : string) (dirs : list string) :
  saved_meshes (prelude_events env args weights dirs) = [].
Proof.
  unfold saved_meshes, prelude_events, setup_events, lod_events.
  rewrite !flat_map_app, flat_map_makedirs by reflexivity.
  now destruct (jit args), (lod args).
Qed.

Lemma saved_txts_prelude (env : Env) (args : Args) (weights : string) (dirs : list string) :
  saved_txts (prelude_events env args weights dirs) = [].
Proof.
  unfold saved_txts, prelude_events, setup_events, lod_events.
  rewrite !flat_map_app, flat_map_makedirs by reflexivity.
  now destruct (jit args), (lod args).
Qed.

Lemma handed_networks_prelude (env : Env) (args : Args) (weights : string)
      (dirs : list string) :
  handed_networks (prelude_events env args weights dirs) = [net_of args weights].
Proof.
  unfold handed_networks, prelude_events, setup_events, lod_events.
  rewrite !flat_map_app, flat_map_makedirs by reflexivity.
  now destruct (jit args), (lod args).
Qed.

(** *** What a run past the dispatch contains *)


Lemma shade_calls_run (env : Env) (args : Args) (weights : string)
      (dirs : list string) (md : mode) (tr : list event) :
  shade_calls (prelude_events env args weights dirs ++ EEnter md :: tr) = shade_calls tr.
Proof.
  pose proof (shade_calls_prelude env args weights dirs) as H.
  unfold shade_calls in *. rewrite flat_map_app, H. reflexivity.
Qed.

Lemma saved_pngs_run (env : Env) (args : Args) (weights : string)
      (dirs : list string) (md : mode) (tr : list event) :
  saved_pngs (prelude_events env args weights dirs ++ EEnter md :: tr) = saved_pngs tr.
Proof.
  pose proof (saved_pngs_prelude env args weights dirs) as H.
  unfold saved_pngs in *. rewrite flat_map_app, H. reflexivity.
Qed.

Lemma written_exrs_run (env : Env) (args : Args) (weights : string)
      (dirs : list string) (md : mode) (tr : list event) :
  written_exrs (prelude_events env args weights dirs ++ EEnter md :: tr) = written_exrs tr.
Proof.
  pose proof (written_exrs_prelude env args weights dirs) as H.
  unfold written_exrs in *. rewrite flat_map_app, H. reflexivity.
Qed.

Lemma net_calls_run (env : Env) (args : Args) (weights : string)
      (dirs : list string) (md : mode) (tr : list event) :
  net_calls (prelude_events env args weights dirs ++ EEnter md :: tr) = net_calls tr.
Proof.
  pose proof (net_calls_prelude env args weights dirs) as H.
  unfold net_calls in *. rewrite flat_map_app, H. reflexivity.
Qed.

Lemma marches_run (env : Env) (args : Args) (weights : string)
      (dirs : list string) (md : mode) (tr : list event) :
  marches (prelude_events env args weights dirs ++ EEnter md :: tr) = marches tr.
Proof.
  pose proof (marches_prelude env args weights dirs) as H.
  unfold marches in *. rewrite flat_map_app, H. reflexivity.
Qed.

Lemma saved_meshes_run (env : Env) (args : Args) (weights : string)
      (dirs : list string) (md : mode) (tr : list event) :
  saved_meshes (prelude_events env args weights dirs ++ EEnter md :: tr) = saved_meshes tr.
Proof.
  pose proof (saved_meshes_prelude env args weights dirs) as H.
  unfold saved_meshes in *. rewrite flat_map_app, H. reflexivity.
Qed.

Lemma saved_txts_run (env : Env) (args : Args) (weights : string)
      (dirs : list string) (md : mode) (tr : list event) :
  saved_txts (prelude_events env args weights dirs ++ EEnter md :: tr) = saved_txts tr.
Proof.
  pose proof (saved_txts_prelude env args weights dirs) as H.
  unfold saved_txts in *. rewrite flat_map_app, H. reflexivity.
Qed.

(** *** What the two loops contain *)


Lemma saved_pngs_spin (args : Args) (ins_dir : string) (angles : list Z) :
  saved_pngs (flat_map (spin_events args ins_dir) angles)
  = map (fun angle =>
           ((ins_dir ++ "/rgb/" ++ format_06d (100 * angle) ++ ".png")%string,
            Rgb, spin_call args angle)) angles.
Proof.
  unfold saved_pngs. rewrite flat_map_flat_map.
  cbn [spin_events flat_map app]. apply flat_map_singleton.
Qed.

Lemma written_exrs_spin (args : Args) (ins_dir : string) (angles : list Z) :
  written_exrs (flat_map (spin_events args ins_dir) angles) = [].
Proof.
  unfold written_exrs. rewrite flat_map_flat_map.
  cbn [spin_events flat_map app]. now induction angles.
Qed.



Lemma saved_pngs_sphere (args : Args) (ins_dir : string) (views : list (Z * list F)) :
  saved_pngs (flat_map (sphere_events args ins_dir) views)
  = map (fun pv =>
           ((ins_dir ++ "/normal/" ++ format_06d (fst pv) ++ ".png")%string,
            Normal, sphere_call args (snd pv))) views.
Proof.
  unfold saved_pngs. rewrite flat_map_flat_map.
  rewrite <- flat_map_singleton. apply flat_map_ext. intros pv.
  unfold sphere_events. now destruct (exr args).
Qed.

Lemma written_exrs_sphere (args : Args) (ins_dir : string) (views : list (Z * list F)) :
  written_exrs (flat_map (sphere_events args ins_dir) views)
  = if exr args
    then map (fun pv =>
                ((ins_dir ++ "/exr/" ++ format_06d (fst pv) ++ ".exr")%string,
                 sphere_call args (snd pv))) views
    else [].
Proof.
  unfold written_exrs. rewrite flat_map_flat_map.
  unfold sphere_events. destruct (exr args).
  - rewrite <- flat_map_singleton. now apply flat_map_ext.
  - now induction views.
Qed.




End WholeRuns.

(** ** The run of each mode *)

Lemma np_arange_spin : np_arange 0 360 10 = spin_angles.
Proof. reflexivity. Qed.

Lemma length_spin_angles : length spin_angles = 36.
Proof. reflexivity. Qed.

Section ModeRuns.
Context {F : Type} {ops : FloatOps F}.
Context {FS : Type} {fsys : FileSystem FS}.
Local Abbreviation tensor := (@tensor F).
Local Abbreviation Args := (@Args F).
Local Abbreviation Env := (@Env F).
Local Abbreviation event := (@event F).



Lemma run_grid (env : Env) (args : Args) (weights : string) (fs : FS) :
  pretrained args = Some weights -> export args = None ->
  r360 args = false -> rsphere args = false -> sdf_grid args = true ->
  output_dirs_made args weights fs ->
  exists dirs fs',
    run env args fs
    = (let '(tr, fs'', o) := run_sdf_grid env (net_of args weights) fs' in
       (prelude_events env args weights dirs ++ EEnter SdfGrid :: tr, fs'', o)).
Proof.
  intros Hp Hex Hr Hs Hg Hd.
  destruct (@run_by_mode _ _ _ _ env args weights fs Hp Hex Hd) as (dirs & fs' & E).
  exists dirs, fs'. rewrite E. unfold mode_by_priority. now rewrite Hr, Hs, Hg.
Qed.

Lemma run_default (env : Env) (args : Args) (weights : string) (fs : FS) :
  pretrained args = Some weights -> export args = None ->
  r360 args = false -> rsphere args = false -> sdf_grid args = false ->
  output_dirs_made args weights fs ->
  exists dirs fs',
    run env args fs
    = (let '(tr, fs'', o) := run_marching_cubes env (net_of args weights) fs' in
       (prelude_events env args weights dirs ++ EEnter MarchingCubes :: tr,
        fs'', o)).
Proof.
  intros Hp Hex Hr Hs Hg Hd.
  destruct (@run_by_mode _ _ _ _ env args weights fs Hp Hex Hd) as (dirs & fs' & E).
  exists dirs, fs'. rewrite E. unfold mode_by_priority. now rewrite Hr, Hs, Hg.
Qed.



Lemma saved_txts_sdf_grid (env : Env) (m : module) (fs : FS) :
  saved_txts (fst (fst (run_sdf_grid env m fs))) = [].
Proof.
  rewrite run_sdf_grid_run.
  destruct (cuda_available env); [|reflexivity].
  now destruct (net_call env m csv_batch).
Qed.

Lemma outcome_sdf_grid (env : Env) (m : module) (fs : FS) :
  exists e, snd (run_sdf_grid env m fs) = Raised e.
Proof.
  rewrite run_sdf_grid_run.
  destruct (cuda_available env); [|now eexists].
  destruct (net_call env m csv_batch); now eexists.
Qed.

End ModeRuns.

(** ** Further facts about paths and numbers *)


Lemma length_append (a b : string) :
  String.length (a ++ b) = String.length a + String.length b.
Proof. induction a as [|c a IH]; simpl; congruence. Qed.

Lemma append_inj_l (a x y : string) : (a ++ x = a ++ y)%string -> x = y.
Proof. induction a as [|c a IH]; simpl; intros H; [exact H|]. injection H as H. auto. Qed.

Lemma append_inj_r (s x y : string) : (x ++ s = y ++ s)%string -> x = y.
Proof.
  intros H.
  assert (Hl : String.length x = String.length y).
  { apply (f_equal String.length) in H. rewrite !length_append in H. lia. }
  revert y H Hl. induction x as [|c x IH]; intros [|d y] H Hl; simpl in *;
    try discriminate; trivial.
  injection H as -> H. f_equal. apply IH; [exact H|lia].
Qed.



(** Splitting around a separator splits both sides. *)
Lemma split_on_app_sep (sep : ascii) (a b : string) :
  split_on sep (a ++ String sep b) = split_on sep a ++ split_on sep b.
Proof.
  induction a as [|c a IH]; simpl.
  - now rewrite Ascii.eqb_refl.
  - rewrite IH. destruct (Ascii.eqb c sep); trivial.
    destruct (split_on sep a) as [|h t] eqn:E; trivial.
    now apply split_on_nonempty in E.
Qed.

Lemma split_on_without_sep (sep : ascii) (s : string) :
  contains_char sep s = false -> split_on sep s = [s].
Proof.
  induction s as [|c s IH]; simpl; trivial.
  intros H. apply orb_false_iff in H. destruct H as [Hc Hs].
  now rewrite Hc, IH.
Qed.

Lemma last_app_r {A} (l1 l2 : list A) (d : A) :
  l2 <> [] -> last (l1 ++ l2) d = last l2 d.
Proof.
  intros H. induction l1 as [|a l1 IH]; trivial.
  cbn [app]. destruct (l1 ++ l2) eqn:E; [|exact IH].
  apply app_eq_nil in E. destruct E. contradiction.
Qed.

(** The final component of a path after a directory part. *)
Lemma last_component_after_dir (dir comp : string) :
  contains_char "/" comp = false ->
  last (split_on "/" (dir ++ String "/" comp)) EmptyString = comp.
Proof.
  intros H. rewrite split_on_app_sep, last_app_r by apply split_on_nonempty.
  now rewrite split_on_without_sep.
Qed.

Lemma head_before_dot (base ext : string) :
  contains_char "." base = false ->
  hd EmptyString (split_on "." (base ++ String "." ext)) = base.
Proof.
  intros H. rewrite split_on_app_sep, split_on_without_sep by assumption.
  reflexivity.
Qed.

Lemma head_piece_empty (c : string) :
  hd EmptyString (split_on "." c) = EmptyString
  <-> c = EmptyString \/ exists r, c = String "." r.
Proof.
  destruct c as [|ch r]; simpl.
  - split; auto.
  - destruct (Ascii.eqb_spec ch ".") as [->|Hne]; simpl.
    + split; eauto.
    + destruct (split_on "." r) as [|h t]; simpl.
      * split; [discriminate|]. intros [H|[r' H]]; [discriminate|congruence].
      * split; [discriminate|]. intros [H|[r' H]]; [discriminate|congruence].
Qed.





(** *** Six-digit numbers *)

Lemma uint_of_zeros (k : nat) (s : string) :
  NilEmpty.uint_of_string (zeros k ++ s)
  = option_map (Nat.iter k Decimal.D0) (NilEmpty.uint_of_string s).
Proof.
  induction k as [|k IH]; cbn [zeros append Nat.iter].
  - now destruct (NilEmpty.uint_of_string s).
  - cbn [NilEmpty.uint_of_string]. rewrite IH.
    now destruct (NilEmpty.uint_of_string s).
Qed.

Lemma of_uint_leading_zeros (k : nat) (d : Decimal.uint) :
  N.of_uint (Nat.iter k Decimal.D0 d) = N.of_uint d.
Proof. induction k as [|k IH]; trivial. Qed.

Lemma int_of_padded_digits (k : nat) (n : N) :
  int_of_digits (zeros k ++ NilEmpty.string_of_uint (N.to_uint n)) = Some (Z.of_N n).
Proof.
  unfold int_of_digits. rewrite uint_of_zeros, NilEmpty.usu. cbn [option_map].
  now rewrite of_uint_leading_zeros, DecimalN.Unsigned.of_to.
Qed.

(** Reading the formatted number gives it back. *)
Lemma int_of_format_06d (n : Z) :
  (0 <= n)%Z -> int_of_digits (format_06d n) = Some n.
Proof.
  intros Hn. unfold format_06d.
  destruct (Z.ltb_spec n 0) as [|_]; [lia|].
  rewrite int_of_padded_digits. f_equal. lia.
Qed.

Lemma int_of_minus (s : string) : int_of_digits (String "-" s) = None.
Proof.
  unfold int_of_digits. cbn [NilEmpty.uint_of_string].
  now destruct (NilEmpty.uint_of_string s).
Qed.

Lemma format_06d_inj (a b : Z) : format_06d a = format_06d b -> a = b.
Proof.
  intros H.
  destruct (Z.ltb_spec a 0) as [Ha|Ha], (Z.ltb_spec b 0) as [Hb|Hb].
  - unfold format_06d in H.
    destruct (Z.ltb_spec a 0) as [_|]; [|lia].
    destruct (Z.ltb_spec b 0) as [_|]; [|lia].
    cbn [append] in H. injection H as H.
    apply (f_equal int_of_digits) in H.
    rewrite !int_of_padded_digits in H. injection H as H. lia.
  - apply (f_equal int_of_digits) in H.
    rewrite (int_of_format_06d Hb) in H. unfold format_06d in H.
    destruct (Z.ltb_spec a 0) as [_|]; [|lia].
    cbn [append] in H. now rewrite int_of_minus in H.
  - apply (f_equal int_of_digits) in H.
    rewrite (int_of_format_06d Ha) in H. unfold format_06d in H.
    destruct (Z.ltb_spec b 0) as [_|]; [|lia].
    cbn [append] in H. now rewrite int_of_minus in H.
  - apply (f_equal int_of_digits) in H.
    rewrite (int_of_format_06d Ha), (int_of_format_06d Hb) in H. congruence.
Qed.

Lemma length_zeros (k : nat) : String.length (zeros k) = k.
Proof. induction k; simpl; congruence. Qed.

Lemma length_format_06d (n : Z) : 6 <= String.length (format_06d n).
Proof.
  unfold format_06d. destruct (n <? 0)%Z; cbn [append String.length];
    rewrite ?length_append, length_zeros; lia.
Qed.


(** ** Further facts about the directories, the grids and the runs *)


Lemma flat_map_nil_Forall {A B} (f : A -> list B) (l : list A) :
  Forall (fun a => f a = []) l -> flat_map f l = [].
Proof. induction 1 as [|a l Ha _ IH]; simpl; trivial. now rewrite Ha, IH. Qed.

Lemma NoDup_map_inj {A B} (f : A -> B) (l : list A) :
  (forall x y, In x l -> In y l -> f x = f y -> x = y) ->
  NoDup l -> NoDup (map f l).
Proof.
  intros Hinj Hnd. induction Hnd as [|a l Ha Hnd IH]; simpl; constructor.
  - intros Hin. apply in_map_iff in Hin. destruct Hin as (b & E & Hb).
    apply Hinj in E; [subst; contradiction|now right|now left].
  - apply IH. intros x y Hx Hy. apply Hinj; now right.
Qed.

Lemma NoDup_spin_angles : NoDup spin_angles.
Proof.
  unfold spin_angles. apply NoDup_map_inj; [|apply seq_NoDup].
  intros x y _ _ H. lia.
Qed.

(** Rows of a list built by [flat_map] from pieces of one length. *)
Lemma nth_flat_map_uniform {A B} (f : A -> list B) (n : nat) (l : list A)
      (da : A) (db : B) :
  (forall a, length (f a) = n) ->
  forall i r, i < length l -> r < n ->
    nth (i * n + r) (flat_map f l) db = nth r (f (nth i l da)) db.
Proof.
  intros Hlen. induction l as [|a l IH]; intros i r Hi Hr; simpl in Hi; [lia|].
  cbn [flat_map]. destruct i as [|i].
  - cbn [Nat.mul Nat.add nth]. rewrite app_nth1 by (rewrite Hlen; lia). reflexivity.
  - rewrite app_nth2 by (rewrite Hlen; nia).
    rewrite Hlen. replace (S i * n + r - n) with (i * n + r) by nia.
    cbn [nth]. apply IH; lia.
Qed.

Section GridLayoutFacts.
Context {F : Type} {ops : FloatOps F}.
Local Abbreviation tensor := (@tensor F).

Lemma length_grid_plane (x : F) (Ky Kz : list F) :
  length (flat_map (fun y => map (fun z => (x, y, z)) Kz) Ky)
  = length Ky * length Kz.
Proof.
  induction Ky as [|y Ky IH]; simpl; trivial.
  now rewrite length_app, length_map, IH.
Qed.

(** Point number (i * |Ky| + j) * |Kz| + k of the grid. *)
Lemma nth_grid_points (Kx Ky Kz : list F) (i j k : nat) (d : F) :
  i < length Kx -> j < length Ky -> k < length Kz ->
  nth ((i * length Ky + j) * length Kz + k) (grid_points Kx Ky Kz) (d, d, d)
  = (nth i Kx d, nth j Ky d, nth k Kz d).
Proof.
  intros Hi Hj Hk. unfold grid_points.
  replace ((i * length Ky + j) * length Kz + k)
    with (i * (length Ky * length Kz) + (j * length Kz + k)) by nia.
  rewrite (nth_flat_map_uniform _ (n := length Ky * length Kz) Kx d);
    [|intros x; apply length_grid_plane|assumption|nia].
  rewrite (nth_flat_map_uniform _ (n := length Kz) Ky d);
    [|intros y; apply length_map|assumption|assumption].
  rewrite (nth_indep _ (d, d, d) ((fun z => (nth i Kx d, nth j Ky d, z)) d))
    by now rewrite length_map.
  now rewrite map_nth.
Qed.

(** The coordinates of row r of the data of a batch of points. *)
Lemma nth_points_data (pts : list (F * F * F)) (r : nat) (d : F) :
  r < length pts ->
  let p := nth r pts (d, d, d) in
  nth (r * 3 + 0) (flat_map (fun '(x, y, z) => [x; y; z]) pts) d = fst (fst p) /\
  nth (r * 3 + 1) (flat_map (fun '(x, y, z) => [x; y; z]) pts) d = snd (fst p) /\
  nth (r * 3 + 2) (flat_map (fun '(x, y, z) => [x; y; z]) pts) d = snd p.
Proof.
  intros Hr p.
  assert (Hlen : forall a : F * F * F,
             length ((fun '(x, y, z) => [x; y; z]) a) = 3).
  { now intros [[x y] z]. }
  rewrite !(nth_flat_map_uniform _ (n := 3) pts (d, d, d)) by (trivial; lia).
  fold p. now destruct p as [[x y] z].
Qed.

Lemma batch_entries (float32 : bool) (pts : list (F * F * F)) (r : nat) :
  r < length pts ->
  let cast := fun v : F => if float32 then to_float32 v else v in
  let p := nth r pts (fdefault, fdefault, fdefault) in
  entry (batch_on_cuda float32 pts) r 0 = cast (fst (fst p)) /\
  entry (batch_on_cuda float32 pts) r 1 = cast (snd (fst p)) /\
  entry (batch_on_cuda float32 pts) r 2 = cast (snd p).
Proof.
  intros Hr cast p. unfold entry, batch_on_cuda. cbn [t_data].
  destruct (nth_points_data pts fdefault Hr) as (H0 & H1 & H2). fold p in H0, H1, H2.
  destruct float32; subst cast; cbv beta iota.
  - rewrite !(nth_indep _ fdefault (to_float32 fdefault))
      by (rewrite length_map, length_points_data; lia).
    rewrite !map_nth. now rewrite H0, H1, H2.
  - now rewrite H0, H1, H2.
Qed.

End GridLayoutFacts.

Section DirectoryFacts.
Context {F : Type} {ops : FloatOps F}.
Context {FS : Type} {fsys : FileSystem FS}.
Local Abbreviation tensor := (@tensor F).
Local Abbreviation Args := (@Args F).
Local Abbreviation Env := (@Env F).
Local Abbreviation M := (@M F FS).
Local Abbreviation matrix := (@matrix F).
Local Abbreviation shade_call := (@shade_call F).
Local Abbreviation event := (@event F).

Local Open Scope script_scope.

(** What lines 150-157 make of the four directories. *)
Lemma output_dirs_run (args : Args) (weights : string) (fs : FS) :
  (forall p, In p (dirs_made args weights fs) ->
             In p (output_dirs args weights) /\ path_exists fs p = false) /\
  NoDup (dirs_made args weights fs) /\
  (forall q, path_exists fs q = true ->
             path_exists (dirs_state args weights fs) q = true) /\
  (forall p, In p (dirs_made args weights fs) ->
             path_exists (dirs_state args weights fs) p = true) /\
  (output_dirs_made args weights fs ->
   forall p, In p (output_dirs args weights) ->
             path_exists (dirs_state args weights fs) p = true) /\
  fst (fst (make_output_dirs (F:=F) (ins_dir_of args weights)
                             (dirs_state args weights fs))) = [].
Proof.
  unfold dirs_made, dirs_state, output_dirs_made, output_dirs.
  rewrite make_output_dirs_all.
  destruct (ensure_all_run (F:=F)
              (ins_dir_of args weights
               :: map (os_path_join (ins_dir_of args weights))
                      ["normal"; "rgb"; "exr"]%string) fs)
    as (dirs & fs' & o & E & Ho & Hd & Hn & Hk & Hm & Hv & Hi).
  rewrite E. cbn [fst snd]. rewrite made_dirs_makedirs.
  split; [exact Hd|]. split; [exact Hn|]. split; [exact Hk|].
  split; [exact Hm|]. split; [exact Hv|exact Hi].
Qed.

(** The empty path is never made: with an empty instance directory
    the run ends at line 152. *)
Lemma output_dirs_made_nonempty (args : Args) (weights : string) (fs : FS) :
  output_dirs_made args weights fs -> ins_dir_of args weights <> EmptyString.
Proof.
  unfold output_dirs_made, make_output_dirs. intros H E. rewrite E in H.
  assert (Hd : ensure_dir (F:=F) EmptyString fs = ([], fs, Raised FileNotFoundError)).
  { now rewrite ensure_dir_cases, exists_empty, makedirs_empty. }
  rewrite (bind_raised _ _ _ Hd) in H. discriminate.
Qed.

(** No mode creates a directory. *)
Lemma run_mode_keeps_dirs (env : Env) (args : Args) (weights : string) (fs : FS) :
  snd (fst (run_mode env args weights fs)) = fs.
Proof.
  unfold run_mode. destruct (mode_by_priority args).
  - now rewrite run_r360_run.
  - now rewrite run_rsphere_run.
  - rewrite run_sdf_grid_run. destruct (cuda_available env); trivial.
    now destruct (net_call env (net_of args weights) csv_batch).
  - rewrite run_marching_cubes_run. destruct (cuda_available env); trivial.
    now destruct (net_call env (net_of args weights) mesh_batch).
Qed.

(** The events up to the dispatch end with the construction of the
    renderer. *)
Lemma prelude_events_split (env : Env) (args : Args) (weights : string)
      (dirs : list string) :
  prelude_events env args weights dirs
  = (setup_events env args weights ++ lod_events args weights
     ++ map (@EMakedirs F) dirs)
    ++ [ERenderer (net_of args weights) (picked_device env)].
Proof. unfold prelude_events. now rewrite <- !app_assoc. Qed.

(** The two ways of a run with weights and without --export: past
    the directories and through the mode that the flags select, or
    stopped by [os.makedirs]. *)
Lemma run_cases (env : Env) (args : Args) (weights : string) (fs : FS) :
  pretrained args = Some weights -> export args = None ->
  (output_dirs_made args weights fs /\
   run env args fs
   = (prelude_events env args weights (dirs_made args weights fs)
      ++ EEnter (mode_by_priority args)
         :: fst (fst (run_mode env args weights (dirs_state args weights fs))),
      dirs_state args weights fs,
      snd (run_mode env args weights (dirs_state args weights fs)))) \/
  (~ output_dirs_made args weights fs /\
   exists e,
     run env args fs
     = (setup_events env args weights ++ lod_events args weights
        ++ map (@EMakedirs F) (dirs_made args weights fs),
        dirs_state args weights fs, Raised e)).
Proof.
  intros Hp Hex.
  destruct (output_dirs_made_dec args weights fs) as [Hd|Hd].
  - left. split; [exact Hd|].
    rewrite (@run_past_dirs _ _ _ _ env args weights fs Hp Hex Hd).
    now rewrite run_mode_keeps_dirs.
  - right. split; [exact Hd|].
    exact (@run_stopped _ _ _ _ env args weights fs Hp Hex Hd).
Qed.

(** The modes that evaluate the network themselves emit nothing but
    evaluation events. *)
Lemma run_sdf_grid_events (env : Env) (m : module) (fs : FS) :
  Forall evaluation_event (fst (fst (run_sdf_grid env m fs))).
Proof.
  rewrite run_sdf_grid_run. destruct (cuda_available env); [|constructor].
  destruct (net_call env m csv_batch); cbn [fst]; repeat constructor.
Qed.

Lemma run_marching_cubes_events (env : Env) (m : module) (fs : FS) :
  Forall evaluation_event (fst (fst (run_marching_cubes env m fs))).
Proof.
  rewrite run_marching_cubes_run. destruct (cuda_available env).
  - destruct (net_call env m mesh_batch); cbn [fst]; repeat constructor.
  - cbn [fst]. repeat constructor.
Qed.

Lemma spin_events_mode (args : Args) (ins_dir : string) (angles : list Z) :
  Forall mode_event (flat_map (spin_events args ins_dir) angles).
Proof.
  induction angles as [|a l IH]; cbn [flat_map]; [constructor|].
  apply Forall_app. split; [|exact IH]. repeat constructor.
Qed.

Lemma sphere_events_mode (args : Args) (ins_dir : string)
      (views : list (Z * list F)) :
  Forall mode_event (flat_map (sphere_events args ins_dir) views).
Proof.
  induction views as [|a l IH]; cbn [flat_map]; [constructor|].
  apply Forall_app. split; [|exact IH].
  unfold sphere_events. destruct (exr args); repeat constructor.
Qed.

Lemma evaluation_is_mode_event (e : event) : evaluation_event e -> mode_event e.
Proof. now destruct e. Qed.

(** Every event of a mode is an event of the modes. *)
Lemma run_mode_events (env : Env) (args : Args) (weights : string) (fs : FS) :
  Forall mode_event (fst (fst (run_mode env args weights fs))).
Proof.
  unfold run_mode. destruct (mode_by_priority args).
  - rewrite run_r360_run. apply spin_events_mode.
  - rewrite run_rsphere_run. apply sphere_events_mode.
  - eapply Forall_impl; [apply evaluation_is_mode_event|apply run_sdf_grid_events].
  - eapply Forall_impl; [apply evaluation_is_mode_event|
                          apply run_marching_cubes_events].
Qed.

(** A projection that reads no event of the modes reads the prelude
    only. *)
Lemma projection_of_prelude {B} (f : event -> list B) (env : Env) (args : Args)
      (weights : string) (dirs : list string) (md : mode) (tr : list event) :
  (forall e, mode_event e -> f e = []) -> f (EEnter md) = [] ->
  Forall mode_event tr ->
  flat_map f (prelude_events env args weights dirs ++ EEnter md :: tr)
  = flat_map f (prelude_events env args weights dirs).
Proof.
  intros Hf He Htr. rewrite flat_map_app. cbn [flat_map]. rewrite He.
  rewrite (flat_map_nil_Forall f (l := tr)).
  - now rewrite app_nil_r.
  - eapply Forall_impl; [|exact Htr]. exact Hf.
Qed.

Lemma made_dirs_prelude (env : Env) (args : Args) (weights : string)
      (dirs : list string) :
  made_dirs (prelude_events env args weights dirs) = dirs.
Proof.
  unfold made_dirs, prelude_events, setup_events, lod_events.
  rewrite !flat_map_app.
  assert (E : flat_map (fun e : event => match e with EMakedirs p => [p] | _ => [] end)
                       (map (@EMakedirs F) dirs) = dirs).
  { clear. induction dirs as [|d dirs IH]; simpl; congruence. }
  rewrite E. destruct (jit args), (lod args); cbn; now rewrite app_nil_r.
Qed.

Lemma set_lods_prelude (env : Env) (args : Args) (weights : string)
      (dirs : list string) :
  set_lods (prelude_events env args weights dirs)
  = match lod args with
    | Some l => [(net_of args weights, l)]
    | None => []
    end.
Proof.
  unfold set_lods, prelude_events, setup_events, lod_events.
  rewrite !flat_map_app, flat_map_makedirs by reflexivity.
  now destruct (jit args), (lod args).
Qed.

Lemma renderers_prelude (env : Env) (args : Args) (weights : string)
      (dirs : list string) :
  renderers (prelude_events env args weights dirs)
  = [(net_of args weights, picked_device env)].
Proof.
  unfold renderers, prelude_events, setup_events, lod_events.
  rewrite !flat_map_app, flat_map_makedirs by reflexivity.
  now destruct (jit args), (lod args).
Qed.

Lemma mode_by_priority_flags (args : Args) :
  match mode_by_priority args with
  | Spin360 => r360 args = true
  | SphereViews => r360 args = false /\ rsphere args = true
  | SdfGrid => r360 args = false /\ rsphere args = false /\ sdf_grid args = true
  | MarchingCubes =>
      r360 args = false /\ rsphere args = false /\ sdf_grid args = false
  end.
Proof.
  unfold mode_by_priority.
  destruct (r360 args), (rsphere args), (sdf_grid args); auto.
Qed.

(** The images of a mode that evaluates the network itself: none. *)
Lemma no_images_of_evaluation (tr : list event) :
  Forall evaluation_event tr ->
  shade_calls tr = [] /\ saved_pngs tr = [] /\ written_exrs tr = [].
Proof.
  intros H. unfold shade_calls, saved_pngs, written_exrs.
  split; [|split]; apply flat_map_nil_Forall;
    (eapply Forall_impl; [|exact H]); now intros [].
Qed.

End DirectoryFacts.


Section OutputPathFacts.
Context {F : Type} {ops : FloatOps F}.
Context {FS : Type} {fsys : FileSystem FS}.
Local Abbreviation tensor := (@tensor F).
Local Abbreviation Args := (@Args F).
Local Abbreviation Env := (@Env F).
Local Abbreviation event := (@event F).








(** The names of the image files of the two rendering loops. *)
Lemma png_paths_spin (args : Args) (ins_dir : string) (angles : list Z) :
  png_paths (flat_map (spin_events args ins_dir) angles)
  = map (fun angle => (ins_dir ++ "/rgb/" ++ format_06d (100 * angle) ++ ".png")%string)
        angles.
Proof.
  unfold png_paths. rewrite saved_pngs_spin, map_map. reflexivity.
Qed.

Lemma png_paths_sphere (args : Args) (ins_dir : string) (views : list (Z * list F)) :
  png_paths (flat_map (sphere_events args ins_dir) views)
  = map (fun pv => (ins_dir ++ "/normal/" ++ format_06d (fst pv) ++ ".png")%string)
        views.
Proof.
  unfold png_paths. rewrite saved_pngs_sphere, map_map. reflexivity.
Qed.

Lemma numbered_paths_distinct (dir ext : string) (numbers : list Z) :
  NoDup numbers ->
  NoDup (map (fun n => (dir ++ format_06d n ++ ext)%string) numbers).
Proof.
  intros H. apply NoDup_map_inj; trivial.
  intros x y _ _ E. apply append_inj_l, append_inj_r in E.
  now apply format_06d_inj.
Qed.

Lemma map_fst_enumerate {A} (l : list A) :
  map fst (enumerate l) = map Z.of_nat (seq 0 (length l)).
Proof.
  unfold enumerate. generalize 0 as start.
  induction l as [|a l IH]; intros start; cbn [length seq map combine]; trivial.
  cbn [fst]. now rewrite IH.
Qed.

Lemma NoDup_enumerate_numbers {A} (l : list A) : NoDup (map fst (enumerate l)).
Proof.
  rewrite map_fst_enumerate.
  apply NoDup_map_inj; [|apply seq_NoDup]. intros x y _ _ H. lia.
Qed.

End OutputPathFacts.

Section WholeRunFacts.
Context {F : Type} {ops : FloatOps F}.
Context {FS : Type} {fsys : FileSystem FS}.
Local Abbreviation tensor := (@tensor F).
Local Abbreviation Args := (@Args F).
Local Abbreviation Env := (@Env F).
Local Abbreviation event := (@event F).





(** No mode leaves through [exit]. *)
Lemma run_mode_never_exits (env : Env) (args : Args) (weights : string) (fs : FS) c :
  snd (run_mode env args weights fs) <> Exited c.
Proof.
  unfold run_mode. destruct (mode_by_priority args).
  - now rewrite run_r360_run.
  - now rewrite run_rsphere_run.
  - rewrite run_sdf_grid_run. destruct (cuda_available env); [|discriminate].
    now destruct (net_call env (net_of args weights) csv_batch).
  - rewrite run_marching_cubes_run. destruct (cuda_available env); [|discriminate].
    now destruct (net_call env (net_of args weights) mesh_batch).
Qed.

Lemma projections_of_export (env : Env) (args : Args) (weights path : string) :
  let tr := setup_events env args weights
            ++ [ESolSave (SOL_NGLOD (GyroidLattice (org_net_of args weights))) path] in
  shade_calls tr = [] /\ saved_pngs tr = [] /\ written_exrs tr = [] /\
  made_dirs tr = [] /\ set_lods tr = [].
Proof.
  unfold setup_events, shade_calls, saved_pngs, written_exrs, made_dirs, set_lods.
  cbv zeta. rewrite !flat_map_app. now destruct (jit args).
Qed.

(** A projection that reads neither the renderer nor the modes reads
    the same from a run that went on and from one that stopped. *)
Lemma projection_of_run {B} (f : event -> list B) (env : Env) (args : Args)
      (weights : string) (fs : FS) :
  pretrained args = Some weights -> export args = None ->
  (forall e, mode_event e -> f e = []) ->
  (forall md, f (EEnter md) = []) -> (forall m d, f (ERenderer m d) = []) ->
  flat_map f (trace_of env args fs)
  = flat_map f (setup_events env args weights ++ lod_events args weights
                ++ map (@EMakedirs F) (dirs_made args weights fs)).
Proof.
  intros Hp Hex Hf He Hr. unfold trace_of.
  destruct (run_cases env args fs Hp Hex) as [[_ E]|[_ [e E]]];
    rewrite E; cbn [fst]; trivial.
  rewrite projection_of_prelude; [|exact Hf|apply He|apply run_mode_events].
  rewrite prelude_events_split, flat_map_app. cbn [flat_map].
  now rewrite Hr, !app_nil_r.
Qed.

(** A projection that does not read the renderer reads the same from
    the events up to the directories and from those up to the
    dispatch. *)
Lemma stopped_projection {B} (f : event -> list B) (env : Env) (args : Args)
      (weights : string) (dirs : list string) :
  (forall m d, f (ERenderer m d) = []) ->
  flat_map f (setup_events env args weights ++ lod_events args weights
              ++ map (@EMakedirs F) dirs)
  = flat_map f (prelude_events env args weights dirs).
Proof.
  intros Hr. rewrite prelude_events_split.
  rewrite (flat_map_app f _ [ERenderer (net_of args weights) (picked_device env)]).
  cbn [flat_map]. now rewrite Hr, !app_nil_r.
Qed.

Lemma made_dirs_before_renderer (env : Env) (args : Args) (weights : string)
      (dirs : list string) :
  made_dirs (setup_events env args weights ++ lod_events args weights
             ++ map (@EMakedirs F) dirs) = dirs.
Proof.
  pose proof (made_dirs_prelude env args weights dirs) as H.
  rewrite prelude_events_split in H. unfold made_dirs in *.
  rewrite flat_map_app in H. cbn [flat_map] in H.
  now rewrite !app_nil_r in H.
Qed.

Lemma made_dirs_run (env : Env) (args : Args) (weights : string) (fs : FS) :
  pretrained args = Some weights -> export args = None ->
  made_dirs (trace_of env args fs) = dirs_made args weights fs.
Proof.
  intros Hp Hex. unfold made_dirs at 1.
  rewrite (projection_of_run _ env args fs Hp Hex);
    [apply made_dirs_before_renderer|now intros []|reflexivity|reflexivity].
Qed.

Lemma dirs_after_run (env : Env) (args : Args) (weights : string) (fs : FS) :
  pretrained args = Some weights -> export args = None ->
  dirs_after env args fs = dirs_state args weights fs.
Proof.
  intros Hp Hex. unfold dirs_after.
  now destruct (run_cases env args fs Hp Hex) as [[_ E]|[_ [e E]]]; rewrite E.
Qed.

(** The trace and the outcome of the default mode. *)
Lemma run_default_mode (env : Env) (args : Args) (weights : string) (fs : FS) :
  pretrained args = Some weights -> export args = None ->
  r360 args = false -> rsphere args = false -> sdf_grid args = false ->
  output_dirs_made args weights fs ->
  let dirs := dirs_made args weights fs in
  let r := run_marching_cubes env (net_of args weights) (dirs_state args weights fs) in
  run env args fs
  = (prelude_events env args weights dirs ++ EEnter MarchingCubes :: fst (fst r),
     dirs_state args weights fs, snd r).
Proof.
  intros Hp Hex Hr Hs Hg Hd dirs r.
  destruct (run_cases env args fs Hp Hex) as [[_ E]|[Hn _]]; [|contradiction].
  rewrite E. subst dirs r. unfold run_mode, mode_by_priority.
  now rewrite Hr, Hs, Hg.
Qed.

(** The default mode without an evaluation: nothing is marched and no
    mesh is saved. *)
Lemma default_mode_failure (env : Env) (args : Args) (weights : string) (fs : FS) :
  pretrained args = Some weights -> export args = None ->
  r360 args = false -> rsphere args = false -> sdf_grid args = false ->
  output_dirs_made args weights fs ->
  let tr := trace_of env args fs in
  (cuda_available env = false ->
   outcome_of env args fs = Raised CudaUnavailable /\
   net_calls tr = [] /\ marches tr = [] /\ saved_meshes tr = []) /\
  (cuda_available env = true ->
   forall e, net_call env (net_of args weights) mesh_batch = Raise e ->
     outcome_of env args fs = Raised e /\
     net_calls tr = [(net_of args weights, mesh_batch, true)] /\
     marches tr = [] /\ saved_meshes tr = []).
Proof.
  intros Hp Hex Hr Hs Hg Hd tr. subst tr. unfold trace_of, outcome_of.
  rewrite (run_default_mode env Hp Hex Hr Hs Hg Hd).
  rewrite run_marching_cubes_run. split.
  - intros Hc. rewrite Hc. cbn [fst snd].
    rewrite net_calls_run, marches_run, saved_meshes_run.
    split; [reflexivity|]. split; [reflexivity|]. split; reflexivity.
  - intros Hc e Hnet. rewrite Hc, Hnet. cbn [fst snd].
    rewrite net_calls_run, marches_run, saved_meshes_run.
    split; [reflexivity|]. split; [reflexivity|]. split; reflexivity.
Qed.

(** The trace and the outcome of the grid mode. *)
Lemma run_grid_mode (env : Env) (args : Args) (weights : string) (fs : FS) :
  pretrained args = Some weights -> export args = None ->
  r360 args = false -> rsphere args = false -> sdf_grid args = true ->
  output_dirs_made args weights fs ->
  let dirs := dirs_made args weights fs in
  let r := run_sdf_grid env (net_of args weights) (dirs_state args weights fs) in
  run env args fs
  = (prelude_events env args weights dirs ++ EEnter SdfGrid :: fst (fst r),
     dirs_state args weights fs, snd r).
Proof.
  intros Hp Hex Hr Hs Hg Hd dirs r.
  destruct (run_cases env args fs Hp Hex) as [[_ E]|[Hn _]]; [|contradiction].
  rewrite E. subst dirs r. unfold run_mode, mode_by_priority.
  now rewrite Hr, Hs, Hg.
Qed.

(** Sample [n] of a 150-sample axis, written out. *)
Lemma axis_sample_value (start stop : Q) (n : nat) :
  n < 150 ->
  axis_sample (F:=F) start stop n
  = if (n =? 149)%nat then flit stop
    else fadd (fmul (flit (inject_Z (Z.of_nat n)))
                    (fdiv (fsub (flit stop) (flit start)) (flit (inject_Z 149))))
              (flit start).
Proof.
  intros Hn. unfold axis_sample, np_linspace. cbv zeta.
  rewrite nth_map_seq by exact Hn.
  cbn [Nat.sub Nat.eqb Nat.ltb Nat.leb andb Nat.add].
  now destruct (n =? 149)%nat.
Qed.

(** Row (i * 150 + j) * 150 + k of the batch of the default mode. *)
Lemma mesh_batch_rows (i j k : nat) :
  i < 150 -> j < 150 -> k < 150 ->
  let r := (i * 150 + j) * 150 + k in
  entry (F:=F) mesh_batch r 0 = to_float32 (axis_sample (-1)%Q 1%Q i) /\
  entry (F:=F) mesh_batch r 1 = to_float32 (axis_sample (-0.3)%Q 0.5%Q j) /\
  entry (F:=F) mesh_batch r 2 = to_float32 (axis_sample (-0.3)%Q 0.8%Q k).
Proof.
  intros Hi Hj Hk r.
  assert (Hr : r < 150 * 150 * 150) by (subst r; lia).
  unfold mesh_batch.
  pose proof (length_mesh_points (F:=F)) as Hlen.
  assert (Hp : nth r (mesh_points (F:=F)) (fdefault, fdefault, fdefault)
               = (axis_sample (-1)%Q 1%Q i, axis_sample (-0.3)%Q 0.5%Q j,
                  axis_sample (-0.3)%Q 0.8%Q k)).
  { unfold mesh_points, axis_sample. cbv zeta.
    pose proof (fun H1 H2 H3 =>
                  nth_grid_points
                    (np_linspace (flit (-1)%Q) (flit 1%Q) 150)
                    (np_linspace (flit (-0.3)%Q) (flit 0.5%Q) 150)
                    (np_linspace (flit (-0.3)%Q) (flit 0.8%Q) 150)
                    (i := i) (j := j) (k := k) fdefault H1 H2 H3) as H.
    rewrite !length_np_linspace in H. exact (H Hi Hj Hk). }
  revert Hlen Hp. generalize (mesh_points (F:=F)). intros pts Hlen Hp.
  destruct (batch_entries true pts (r := r)) as (H0 & H1 & H2); [lia|].
  cbv zeta in H0, H1, H2. rewrite Hp in H0, H1, H2.
  split; [exact H0|]. split; [exact H1|exact H2].
Qed.

(** Row (i * 150 + j) * 150 + k of the batch of the grid mode. *)
Lemma csv_batch_rows (i j k : nat) :
  i < 150 -> j < 150 -> k < 150 ->
  let r := (i * 150 + j) * 150 + k in
  entry (F:=F) csv_batch r 0 = axis_sample (-1.1)%Q 1.1%Q i /\
  entry (F:=F) csv_batch r 1 = axis_sample (-1.1)%Q 1.1%Q j /\
  entry (F:=F) csv_batch r 2 = axis_sample (-1.1)%Q 1.1%Q k.
Proof.
  intros Hi Hj Hk r.
  assert (Hr : r < 150 * 150 * 150) by (subst r; lia).
  unfold csv_batch.
  pose proof (length_csv_points (F:=F)) as Hlen.
  assert (Hp : nth r (csv_points (F:=F)) (fdefault, fdefault, fdefault)
               = (axis_sample (-1.1)%Q 1.1%Q i, axis_sample (-1.1)%Q 1.1%Q j,
                  axis_sample (-1.1)%Q 1.1%Q k)).
  { unfold csv_points, axis_sample. cbv zeta.
    pose proof (fun H1 H2 H3 =>
                  nth_grid_points
                    (np_linspace (flit (-1.1)%Q) (flit 1.1%Q) 150)
                    (np_linspace (flit (-1.1)%Q) (flit 1.1%Q) 150)
                    (np_linspace (flit (-1.1)%Q) (flit 1.1%Q) 150)
                    (i := i) (j := j) (k := k) fdefault H1 H2 H3) as H.
    rewrite !length_np_linspace in H. exact (H Hi Hj Hk). }
  revert Hlen Hp. generalize (csv_points (F:=F)). intros pts Hlen Hp.
  destruct (batch_entries false pts (r := r)) as (H0 & H1 & H2); [lia|].
  cbv zeta in H0, H1, H2. rewrite Hp in H0, H1, H2.
  split; [exact H0|]. split; [exact H1|exact H2].
Qed.

Lemma entry_nth (b : tensor) (r c : nat) (v : F) :
  entry b r c = v -> nth (r * 3 + c) (t_data b) (flit 0%Q) = v.
Proof. intros H. exact H. Qed.

(** The same rows, entry by entry and written out. *)
Lemma mesh_batch_row_values (i j k : nat) :
  i < 150 -> j < 150 -> k < 150 ->
  let axis := fun (start stop : Q) (n : nat) =>
    to_float32
      (if (n =? 149)%nat then flit stop
       else fadd (fmul (flit (inject_Z (Z.of_nat n)))
                       (fdiv (fsub (flit stop) (flit start)) (flit (inject_Z 149))))
                 (flit start)) in
  let r := (i * 150 + j) * 150 + k in
  nth (r * 3 + 0) (t_data (mesh_batch (F:=F))) (flit 0%Q) = axis (-1)%Q 1%Q i /\
  nth (r * 3 + 1) (t_data (mesh_batch (F:=F))) (flit 0%Q) = axis (-0.3)%Q 0.5%Q j /\
  nth (r * 3 + 2) (t_data (mesh_batch (F:=F))) (flit 0%Q) = axis (-0.3)%Q 0.8%Q k.
Proof.
  intros Hi Hj Hk axis r.
  destruct (mesh_batch_rows Hi Hj Hk) as (H0 & H1 & H2).
  rewrite !axis_sample_value in H0, H1, H2 by assumption.
  split; [exact (@entry_nth _ _ _ _ H0)|]. split; [exact (@entry_nth _ _ _ _ H1)|exact (@entry_nth _ _ _ _ H2)].
Qed.

Lemma csv_batch_row_values (i j k : nat) :
  i < 150 -> j < 150 -> k < 150 ->
  let axis := fun n : nat =>
    if (n =? 149)%nat then flit 1.1%Q
    else fadd (fmul (flit (inject_Z (Z.of_nat n)))
                    (fdiv (fsub (flit 1.1%Q) (flit (-1.1)%Q)) (flit (inject_Z 149))))
              (flit (-1.1)%Q) in
  let r := (i * 150 + j) * 150 + k in
  nth (r * 3 + 0) (t_data (csv_batch (F:=F))) (flit 0%Q) = axis i /\
  nth (r * 3 + 1) (t_data (csv_batch (F:=F))) (flit 0%Q) = axis j /\
  nth (r * 3 + 2) (t_data (csv_batch (F:=F))) (flit 0%Q) = axis k.
Proof.
  intros Hi Hj Hk axis r.
  destruct (csv_batch_rows Hi Hj Hk) as (H0 & H1 & H2).
  rewrite !axis_sample_value in H0, H1, H2 by assumption.
  split; [exact (@entry_nth _ _ _ _ H0)|]. split; [exact (@entry_nth _ _ _ _ H1)|exact (@entry_nth _ _ _ _ H2)].
Qed.

End WholeRunFacts.


(** * The claims *)

(** ** GyroidLattice.forward *)

Section ForwardClaims.
Context {F : Type} {ops : FloatOps F}.
Context {FS : Type} {fsys : FileSystem FS}.
Local Abbreviation tensor := (@tensor F).
Local Abbreviation Args := (@Args F).
Local Abbreviation Env := (@Env F).
Local Abbreviation event := (@event F).

Lemma handed_networks_all (Q : module -> Prop) (tr : list event) :
  Forall (hands_only Q) tr -> forall m, In m (handed_networks tr) -> Q m.
Proof.
  induction 1 as [|e tr He _ IH]; intros m Hin; simpl in Hin.
  - contradiction.
  - apply in_app_or in Hin. destruct Hin as [Hin|Hin]; [|now apply IH].
    unfold hands_only in He. destruct (hands e); simpl in Hin.
    + destruct Hin as [<-|[]]. exact He.
    + contradiction.
Qed.

(** Every network that a run without --export hands over is [net]
    as lines 143-144 leave it. *)
Lemma main_hands_net (env : Env) (args : Args) (weights : string) :
  pretrained args = Some weights -> export args = None ->
  trace_all (hands_only (fun m => m = net_of args weights))
            (main (FS:=FS) env args).
Proof.
  intros Hp Hex. unfold main.
  rewrite Hp, Hex.
  unfold dispatch, run_r360, run_rsphere, run_sdf_grid, run_marching_cubes.
  trace_steps; exact I || reflexivity.
Qed.

(** The renderer of a run that gets past its directories. *)
Lemma renderers_run (env : Env) (args : Args) (weights : string) (fs : FS) :
  pretrained args = Some weights -> export args = None ->
  output_dirs_made args weights fs ->
  renderers (trace_of env args fs) = [(net_of args weights, picked_device env)].
Proof.
  intros Hp Hex Hd. unfold trace_of.
  destruct (run_cases env args fs Hp Hex) as [[_ E]|[Hn _]]; [|contradiction].
  rewrite E. cbn [fst]. unfold renderers.
  rewrite projection_of_prelude.
  - apply renderers_prelude.
  - now intros [].
  - reflexivity.
  - apply run_mode_events.
Qed.

(** C9, as the code has it: on a batch x of shape (N,3), with CUDA
    there and the wrapped network answering x with an (N,1) tensor on
    cuda:0, [GyroidLattice.forward] returns a tensor of shape (N,1),
    one column of N entries, and not the shape (N,) of its docstring:
    the gyroid term is reshaped to (-1,1) before the maximum. *)
Theorem forward_returns_column
        (sdf_net : tensor -> result tensor) (x s : tensor) (n : nat) :
  t_shape x = [n; 3] -> well_formed x ->
  sdf_net x = Ok s -> t_shape s = [n; 1] -> t_device s = Cuda 0 ->
  exists t,
    forward true sdf_net x = Ok t /\
    t_shape t = [n; 1] /\
    t_shape t <> [n] /\
    length (t_data t) = n.
Proof.
  intros Hs Hwf Hnet Hss Hsd.
  eexists. split; [exact (forward_batch sdf_net Hs Hwf Hnet Hss Hsd)|].
  unfold tabulate. cbn [t_shape t_data numel fold_right].
  repeat split.
  - discriminate.
  - rewrite length_map, length_seq. lia.
Qed.


(** C1, as the script has it: on a run with weights, every network
    handed to a mode, be it to the renderer or to a direct evaluation,
    is the loaded network wrapped by the gyroid lattice, itself
    wrapped in SOL_NGLOD when --sol is given, and a run that gets past
    its output directories hands it to the renderer; the export saves
    the SOL_NGLOD wrapping of the gyroid-wrapped network.  For a batch
    x of shape (N,3) on which the loaded network returns an (N,1)
    tensor on cuda:0, with CUDA there, the gyroid-wrapped network
    returns at row i the maximum of the gyroid implicit value
    cos(2*3.14*x_i/c)*sin(2*3.14*y_i/c) + cos(2*3.14*y_i/c)*sin(2*3.14*z_i/c)
    + cos(2*3.14*z_i/c)*sin(2*3.14*x_i/c) - 0.5^2, c = 0.014408772790049425*3,
    converted to float32, and of the loaded network's value at row i. *)
Theorem modes_get_gyroid_wrapped_network
        (env : Env) (args : Args) (weights : string) (fs : FS) :
  pretrained args = Some weights ->
  let org := OrgNet (net args) (jit args) weights in
  let tr := trace_of env args fs in
  (export args = None ->
   (forall m, In m (handed_networks tr) ->
              m = if sol args then SOL_NGLOD (GyroidLattice org)
                  else GyroidLattice org) /\
   (output_dirs_made args weights fs ->
    renderers tr = [(if sol args then SOL_NGLOD (GyroidLattice org)
                     else GyroidLattice org,
                     if cuda_available env then Cuda 0 else Cpu)])) /\
  (forall path, export args = Some path ->
     handed_networks tr = [SOL_NGLOD (GyroidLattice org)] /\
     sol_saves tr = [(SOL_NGLOD (GyroidLattice org), path)]) /\
  (forall (x s : tensor) (n : nat),
      cuda_available env = true ->
      t_shape x = [n; 3] -> well_formed x ->
      net_call env org x = Ok s -> t_shape s = [n; 1] -> t_device s = Cuda 0 ->
      let c := fmul (flit 0.014408772790049425%Q) (flit 3%Q) in
      let p := fun v => fdiv (fmul (fmul (flit 2%Q) (flit 3.14%Q)) v) c in
      let gyroid := fun a b d =>
        fsub (fadd (fadd (fmul (fcos (p a)) (fsin (p b)))
                         (fmul (fcos (p b)) (fsin (p d))))
                   (fmul (fcos (p d)) (fsin (p a))))
             (fpow (flit 0.5%Q) 2) in
      exists t,
        net_call env (GyroidLattice org) x = Ok t /\
        t_shape t = [n; 1] /\ t_device t = Cuda 0 /\ length (t_data t) = n /\
        forall i, i < n ->
          nth i (t_data t) (flit 0%Q)
          = fmax (to_float32 (gyroid (nth (i * 3 + 0) (t_data x) (flit 0%Q))
                                     (nth (i * 3 + 1) (t_data x) (flit 0%Q))
                                     (nth (i * 3 + 2) (t_data x) (flit 0%Q))))
                 (nth i (t_data s) (flit 0%Q))).
Proof.
  intros Hp org tr. split; [|split].
  - intros Hex. split.
    + intros m Hin.
      apply (handed_networks_all (main_hands_net env args Hp Hex fs) _ Hin).
    + intros Hd. subst tr. now rewrite (renderers_run env Hp Hex Hd).
  - intros path Hex. subst tr. unfold trace_of.
    rewrite (run_export env args fs Hp Hex).
    cbn [fst]. unfold handed_networks, sol_saves, setup_events.
    rewrite !flat_map_app. unfold org_net_of.
    destruct (jit args); split; reflexivity.
  - intros x s n Hc Hs Hwf Hnet Hss Hsd c p gyroid. cbn [net_call]. rewrite Hc.
    eexists. split; [exact (forward_batch _ Hs Hwf Hnet Hss Hsd)|].
    unfold tabulate. cbn [t_shape t_data t_device numel fold_right].
    split; [reflexivity|]. split; [reflexivity|].
    split; [rewrite length_map, length_seq; lia|].
    intros i Hi. rewrite (nth_map_seq _ (n := n * 1)) by lia. reflexivity.
Qed.

End ForwardClaims.

(** ** The script *)

Section ScriptClaims.
Context {F : Type} {ops : FloatOps F}.
Context {FS : Type} {fsys : FileSystem FS}.
Local Abbreviation tensor := (@tensor F).
Local Abbreviation Args := (@Args F).
Local Abbreviation Env := (@Env F).
Local Abbreviation event := (@event F).

(** *** The calls of the modes *)

Lemma prelude_calls_no_mode (env : Env) (args : Args) (weights : string)
      (dirs : list string) :
  Forall (fun e => mode_of_event e = None) (prelude_events env args weights dirs).
Proof.
  unfold prelude_events, setup_events, lod_events.
  rewrite !Forall_app. repeat split.
  - repeat constructor.
  - destruct (jit args); repeat constructor.
  - repeat constructor.
  - destruct (lod args); repeat constructor.
  - apply Forall_forall. intros e He. apply in_map_iff in He.
    now destruct He as (p & <- & _).
  - repeat constructor.
Qed.









(** C4, as the script has it: in the default mode, for a run that
    gets its output directories made, with CUDA there and the
    evaluation returning, the script evaluates the network once, with
    gradients disabled, on the batch of the 150 x 150 x 150 uniform
    grid over [-1,1] x [-0.3,0.5] x [-0.3,0.8], held as float32 on
    cuda:0 with z varying fastest, hands the grid and the values, both
    moved to the CPU, to the cube marcher, and saves the mesh to
    ./marched_gyroid.obj. *)
Theorem default_mode_extracts_mesh
        (env : Env) (args : Args) (weights : string) (fs : FS)
        (sdf : tensor) :
  pretrained args = Some weights -> export args = None ->
  r360 args = false -> rsphere args = false -> sdf_grid args = false ->
  output_dirs_made args weights fs ->
  cuda_available env = true ->
  net_call env (net_of args weights) mesh_batch = Ok sdf ->
  let tr := trace_of env args fs in
  let gyroid := GyroidLattice (OrgNet (net args) (jit args) weights) in
  let net := if sol args then SOL_NGLOD gyroid else gyroid in
  let axis := fun (start stop : Q) (n : nat) =>
    to_float32
      (if (n =? 149)%nat then flit stop
       else fadd (fmul (flit (inject_Z (Z.of_nat n)))
                       (fdiv (fsub (flit stop) (flit start)) (flit (inject_Z 149))))
                 (flit start)) in
  exists grid : tensor,
    grid = mesh_batch /\
    t_shape grid = [150 * 150 * 150; 3] /\
    t_device grid = Cuda 0 /\
    length (t_data grid) = 150 * 150 * 150 * 3 /\
    (forall i j k, i < 150 -> j < 150 -> k < 150 ->
       let r := (i * 150 + j) * 150 + k in
       nth (r * 3 + 0) (t_data grid) (flit 0%Q) = axis (-1)%Q 1%Q i /\
       nth (r * 3 + 1) (t_data grid) (flit 0%Q) = axis (-0.3)%Q 0.5%Q j /\
       nth (r * 3 + 2) (t_data grid) (flit 0%Q) = axis (-0.3)%Q 0.8%Q k) /\
    net_calls tr = [(net, grid, true)] /\
    marches tr
    = [({| t_shape := t_shape grid; t_data := t_data grid; t_device := Cpu |},
        {| t_shape := t_shape sdf; t_data := t_data sdf; t_device := Cpu |})] /\
    saved_meshes tr = ["./marched_gyroid.obj"%string] /\
    exists before,
      Forall (fun e => mode_of_event e = None) before /\
      tr = before
           ++ [EEnter MarchingCubes;
               EPrint "[INFO] here it is"; EPrint "[INFO] sdf slice";
               ENetCall net grid true;
               EMarch {| t_shape := t_shape grid; t_data := t_data grid;
                         t_device := Cpu |}
                      {| t_shape := t_shape sdf; t_data := t_data sdf;
                         t_device := Cpu |};
               EGetMesh; ESaveMesh "./marched_gyroid.obj"].
Proof.
  intros Hp Hex Hr Hs Hg Hd Hc Hnet tr gyroid net axis.
  assert (Htr : tr = prelude_events env args weights (dirs_made args weights fs)
                     ++ [EEnter MarchingCubes;
                         EPrint "[INFO] here it is"; EPrint "[INFO] sdf slice";
                         ENetCall net mesh_batch true;
                         EMarch (to_numpy mesh_batch) (to_numpy sdf);
                         EGetMesh; ESaveMesh "./marched_gyroid.obj"]).
  { subst tr. unfold trace_of.
    rewrite (run_default_mode env Hp Hex Hr Hs Hg Hd).
    now rewrite run_marching_cubes_run, Hc, Hnet. }
  exists mesh_batch. split; [reflexivity|].
  split; [apply mesh_batch_shape|]. split; [reflexivity|].
  split.
  { pose proof (mesh_batch_well_formed (F:=F)) as Hwf. unfold well_formed in Hwf.
    rewrite Hwf, mesh_batch_shape. cbn [numel fold_right].
    generalize (150 * 150 * 150). intros a. lia. }
  split.
  { intros i j k Hi Hj Hk r. exact (mesh_batch_row_values Hi Hj Hk). }
  rewrite Htr, net_calls_run, marches_run, saved_meshes_run.
  split; [reflexivity|]. split; [reflexivity|]. split; [reflexivity|].
  eexists. split; [apply prelude_calls_no_mode|reflexivity].
Qed.

(** C3 against the script: in the grid mode no run writes sdf.csv and
    every run ends with an uncaught exception.  Line 221 calls
    [np.hstack] with two positional arguments: a run that gets its
    output directories made and whose evaluation, with gradients, of
    the batch of the 150^3 points of the uniform grid over
    [-1.1, 1.1]^3 returns, ends there with a TypeError, after the
    evaluation and the two printed shapes and before [np.savetxt]. *)
Theorem grid_mode_never_writes_csv
        (env : Env) (args : Args) (weights : string) (fs : FS) :
  pretrained args = Some weights -> export args = None ->
  r360 args = false -> rsphere args = false -> sdf_grid args = true ->
  let tr := trace_of env args fs in
  let gyroid := GyroidLattice (OrgNet (net args) (jit args) weights) in
  let net := if sol args then SOL_NGLOD gyroid else gyroid in
  let axis := fun n : nat =>
    if (n =? 149)%nat then flit 1.1%Q
    else fadd (fmul (flit (inject_Z (Z.of_nat n)))
                    (fdiv (fsub (flit 1.1%Q) (flit (-1.1)%Q)) (flit (inject_Z 149))))
              (flit (-1.1)%Q) in
  saved_txts tr = [] /\
  (exists e, outcome_of env args fs = Raised e) /\
  (output_dirs_made args weights fs -> cuda_available env = true ->
   forall sdf, net_call env (net_of args weights) csv_batch = Ok sdf ->
     outcome_of env args fs = Raised TypeError /\
     exists grid : tensor,
       grid = csv_batch /\
       t_shape grid = [150 * 150 * 150; 3] /\
       t_device grid = Cuda 0 /\
       length (t_data grid) = 150 * 150 * 150 * 3 /\
       (forall i j k, i < 150 -> j < 150 -> k < 150 ->
          let r := (i * 150 + j) * 150 + k in
          nth (r * 3 + 0) (t_data grid) (flit 0%Q) = axis i /\
          nth (r * 3 + 1) (t_data grid) (flit 0%Q) = axis j /\
          nth (r * 3 + 2) (t_data grid) (flit 0%Q) = axis k) /\
       net_calls tr = [(net, grid, false)] /\
       exists before,
         Forall (fun e => mode_of_event e = None) before /\
         tr = before
              ++ [EEnter SdfGrid;
                  EPrintShape "shape of torch grid: " [150 * 150 * 150; 3];
                  EEval net; ENetCall net grid false;
                  EPrintShape "shape of sdf grid: " (t_shape sdf);
                  EPrintTensor sdf]).
Proof.
  intros Hp Hex Hr Hs Hg tr gyroid net axis.
  assert (Hmode : mode_by_priority args = SdfGrid).
  { unfold mode_by_priority. now rewrite Hr, Hs, Hg. }
  split; [|split].
  - subst tr.
    destruct (run_cases env args fs Hp Hex) as [[_ E]|[_ [e E]]];
      unfold trace_of; rewrite E; cbn [fst].
    + rewrite saved_txts_run.
      unfold run_mode. rewrite Hmode. apply saved_txts_sdf_grid.
    + pose proof (saved_txts_prelude env args weights (dirs_made args weights fs))
        as H.
      rewrite prelude_events_split in H. unfold saved_txts in *.
      rewrite flat_map_app in H. cbn [flat_map] in H.
      now rewrite !app_nil_r in H.
  - unfold outcome_of.
    destruct (run_cases env args fs Hp Hex) as [[_ E]|[_ [e E]]]; rewrite E.
    + cbn [snd]. unfold run_mode. rewrite Hmode. apply outcome_sdf_grid.
    + now exists e.
  - intros Hd Hc sdf Hnet.
    assert (E : run env args fs
                = (prelude_events env args weights (dirs_made args weights fs)
                   ++ [EEnter SdfGrid;
                       EPrintShape "shape of torch grid: " [150 * 150 * 150; 3];
                       EEval net; ENetCall net csv_batch false;
                       EPrintShape "shape of sdf grid: " (t_shape sdf);
                       EPrintTensor sdf],
                   dirs_state args weights fs, Raised TypeError)).
    { rewrite (run_grid_mode env Hp Hex Hr Hs Hg Hd).
      now rewrite run_sdf_grid_run, Hc, Hnet, csv_batch_shape. }
    split; [unfold outcome_of; now rewrite E|].
    exists csv_batch. split; [reflexivity|].
    split; [apply csv_batch_shape|]. split; [reflexivity|].
    split.
    { pose proof (csv_batch_well_formed (F:=F)) as Hwf. unfold well_formed in Hwf.
      rewrite Hwf, csv_batch_shape. cbn [numel fold_right].
    generalize (150 * 150 * 150). intros a. lia. }
    split.
    { intros i j k Hi Hj Hk r. exact (csv_batch_row_values Hi Hj Hk). }
    subst tr. unfold trace_of. rewrite E. cbn [fst].
    rewrite net_calls_run. split; [reflexivity|].
    eexists. split; [apply prelude_calls_no_mode|reflexivity].
Qed.

(** C7, as the script has it: without --pretrained the assertion ends
    the run before anything is constructed; with it the network is
    constructed, scripted when --jit is given, and then loaded from
    that file before anything else is done with it; the model name is
    the final component of the path up to its first '.'. *)
Theorem weights_loaded_after_construction
        (env : Env) (args : Args) (fs : FS) :
  (pretrained args = None ->
   run env args fs = ([], fs, Raised AssertionError)) /\
  (forall weights,
      pretrained args = Some weights ->
      exists rest,
        trace_of env args fs
        = [EConstructNet (net args)]
          ++ (if jit args then [EJitScript (net args)] else [])
          ++ [ELoadStateDict weights] ++ rest) /\
  (forall weights,
      ins_dir_of args weights = os_path_join (img_dir args) (model_name weights) /\
      exists dir ext,
        weights = (dir ++ model_name weights ++ ext)%string /\
        (dir = EmptyString \/ ends_with_slash dir = true) /\
        (ext = EmptyString \/ exists e, ext = String "." e) /\
        contains_char "/" (model_name weights ++ ext) = false /\
        contains_char "." (model_name weights) = false).
Proof.
  split; [apply run_without_weights|]. split.
  - intros weights Hp. unfold trace_of.
    destruct (export args) as [path|] eqn:Hex.
    + rewrite (run_export env args fs Hp Hex). cbn [fst].
      unfold setup_events. rewrite <- !app_assoc. cbn [app].
      eexists. reflexivity.
    + destruct (run_cases env args fs Hp Hex) as [[_ E]|[_ [e E]]];
        rewrite E; cbn [fst]; unfold prelude_events, setup_events;
        rewrite <- !app_assoc; cbn [app]; eexists; reflexivity.
  - intros weights. split; [reflexivity|]. apply model_name_in_path.
Qed.

(** C8, as the script has it: when --export is given, no output
    directory is created, no renderer is constructed and no rendering,
    grid evaluation or mesh extraction occurs; and when the weights
    are given too, the script wraps the gyroid-wrapped model in
    SOL_NGLOD, saves it to the given path and exits at once. *)
Theorem export_saves_and_exits
        (env : Env) (args : Args) (path : string) (fs : FS) :
  export args = Some path ->
  let tr := trace_of env args fs in
  Forall (fun e => ~ rendering_event e) tr /\
  made_dirs tr = [] /\ renderers tr = [] /\ shade_calls tr = [] /\
  net_calls tr = [] /\ marches tr = [] /\ modes_entered tr = [] /\
  (forall weights,
      pretrained args = Some weights ->
      run env args fs
      = (setup_events env args weights
         ++ [ESolSave (SOL_NGLOD (GyroidLattice (org_net_of args weights))) path],
         fs, Exited 0)).
Proof.
  intros Hex tr. subst tr. unfold trace_of.
  destruct (pretrained args) as [weights|] eqn:Hp.
  - rewrite (run_export env args fs Hp Hex). cbn [fst].
    unfold setup_events.
    split; [destruct (jit args); repeat constructor; intros []|].
    do 6 (split; [destruct (jit args); reflexivity|]).
    intros w [= <-]. reflexivity.
  - rewrite (run_without_weights env args fs Hp). cbn [fst].
    split; [constructor|]. do 6 (split; [reflexivity|]). discriminate.
Qed.

End ScriptClaims.

(** * The claims on concrete runs

    The runs start in a file system in which nothing has been made yet:
    only the working directory and the root exist. *)

Lemma gpu_env_evaluates (cls : string) (scripted : bool) (weights : string)
      (x : @tensor fterm) (n : nat) :
  t_shape x = [n; 3] -> well_formed x ->
  exists s, net_call Example.gpu_env (GyroidLattice (OrgNet cls scripted weights)) x
            = Ok s.
Proof.
  intros Hs Hwf. eexists. cbn [net_call Example.gpu_env cuda_available org_forward].
  apply forward_batch
    with (n := n)
         (s := {| t_shape := [hd 0 (t_shape x); 1];
                  t_data := map (fun _ => Example.lit 0) (seq 0 (hd 0 (t_shape x)));
                  t_device := Cuda 0 |}); trivial.
  cbn [t_shape]. now rewrite Hs.
Qed.

(** C1 does not hold as stated.  With --sol the renderer is handed the
    SOL_NGLOD wrapper, not the gyroid-wrapped network.  And the value
    of the gyroid-wrapped network is not the row-wise maximum on every
    batch of shape (N,3): without CUDA it raises; when the loaded
    network raises, so does it; a loaded network answering with shape
    (N,) gives an (N,N) result, and one answering on the CPU a device
    mismatch; and the gyroid value enters the maximum converted to
    float32, which the free interpretation keeps apart from the value
    itself. *)
Lemma sol_run_hands_sol_wrapper :
  let org := OrgNet "OctreeSDF" false Example.example_weights in
  let handed :=
    handed_networks (trace_of Example.gpu_env Example.sol_args (@nil string)) in
  let g := gyroid_value (Example.lit 1) (Example.lit 2) (Example.lit 3) in
  (pretrained Example.sol_args = Some Example.example_weights /\
   In (SOL_NGLOD (GyroidLattice org)) handed /\
   ~ In (GyroidLattice org) handed) /\
  (t_shape Example.two_points = [2; 3] /\
   net_call Example.cpu_env (GyroidLattice org) Example.two_points
   = Raise CudaUnavailable) /\
  forward true Inputs.failing_net Example.two_points = Raise NetworkError /\
  (exists t, forward true Example.flat_net Example.two_points = Ok t /\
             t_shape t = [2; 2]) /\
  forward true Inputs.cpu_net Example.two_points = Raise DeviceMismatch /\
  (exists t,
      net_call Example.gpu_env (GyroidLattice org) Example.two_points = Ok t /\
      nth 0 (t_data t) fdefault = TMax (TFloat32 g) (Example.lit 0) /\
      TMax (TFloat32 g) (Example.lit 0) <> TMax g (Example.lit 0)).
Proof.
  cbv zeta. split; [|split; [|split; [|split; [|split]]]].
  - vm_compute. split; [reflexivity|]. split; [now left|].
    intros [H|[]]. discriminate H.
  - split; reflexivity.
  - reflexivity.
  - eexists. split; reflexivity.
  - reflexivity.
  - eexists. split; [reflexivity|]. split; [reflexivity|]. discriminate.
Qed.

Lemma gyroid_wrapped_witness :
  renderers (trace_of Example.gpu_env Example.spin_args (@nil string))
  = [(GyroidLattice (OrgNet "OctreeSDF" false Example.example_weights), Cuda 0)] /\
  exists t,
    net_call Example.gpu_env
             (GyroidLattice (OrgNet "OctreeSDF" false Example.example_weights))
             Example.two_points = Ok t /\
    t_shape t = [2; 1] /\
    nth 1 (t_data t) (TLit 0)
    = TMax (TFloat32 (gyroid_value (Example.lit 4) (Example.lit 5) (Example.lit 6)))
           (Example.lit 0).
Proof.
  destruct (@modes_get_gyroid_wrapped_network fterm fterm_ops (list string) listed_fs
              Example.gpu_env Example.spin_args Example.example_weights []
              eq_refl) as (H1 & _ & H3).
  split.
  - exact (proj2 (H1 eq_refl) eq_refl).
  - destruct (H3 Example.two_points
                 {| t_shape := [2; 1];
                    t_data := [Example.lit 0; Example.lit 0];
                    t_device := Cuda 0 |} 2
                 eq_refl eq_refl eq_refl eq_refl eq_refl eq_refl)
      as (t & Ht & Hs & _ & _ & Hrow).
    exists t. split; [exact Ht|]. split; [exact Hs|].
    apply (Hrow 1). lia.
Defined.





(** C4 does not hold as stated: a run in the default mode saves no
    mesh when CUDA is missing (line 244 raises), when the evaluation
    raises (here the SOL_NGLOD network of --sol), or when the instance
    directory cannot be made (--img-dir '' with weights/.pth); and the
    grid samples are held as float32, which the free interpretation
    keeps apart from the samples themselves. *)
Lemma default_run_without_mesh :
  (outcome_of Example.cpu_env Example.base_args (@nil string) = Raised CudaUnavailable /\
   saved_meshes (trace_of Example.cpu_env Example.base_args (@nil string)) = []) /\
  (outcome_of Example.gpu_env Inputs.sol_default_args (@nil string)
   = Raised NetworkError /\
   saved_meshes (trace_of Example.gpu_env Inputs.sol_default_args (@nil string)) = []) /\
  (r360 Inputs.no_dir_args = false /\ rsphere Inputs.no_dir_args = false /\
   sdf_grid Inputs.no_dir_args = false /\ export Inputs.no_dir_args = None /\
   outcome_of Example.gpu_env Inputs.no_dir_args (@nil string)
   = Raised FileNotFoundError /\
   saved_meshes (trace_of Example.gpu_env Inputs.no_dir_args (@nil string)) = []) /\
  (nth (((0 * 150 + 0) * 150 + 1) * 3 + 2) (t_data (mesh_batch (F:=fterm))) (TLit 0)
   = TFloat32 (TAdd (TMul (TLit (inject_Z 1))
                          (TDiv (TSub (TLit 0.8) (TLit (-0.3))) (TLit (inject_Z 149))))
                    (TLit (-0.3))) /\
   TFloat32 (TAdd (TMul (TLit (inject_Z 1))
                        (TDiv (TSub (TLit 0.8) (TLit (-0.3))) (TLit (inject_Z 149))))
                  (TLit (-0.3)))
   <> TAdd (TMul (TLit (inject_Z 1))
                 (TDiv (TSub (TLit 0.8) (TLit (-0.3))) (TLit (inject_Z 149))))
           (TLit (-0.3))).
Proof.
  split; [|split; [|split]].
  - destruct (@default_mode_failure fterm fterm_ops (list string) listed_fs
                Example.cpu_env Example.base_args Example.example_weights []
                eq_refl eq_refl eq_refl eq_refl eq_refl eq_refl) as (H & _).
    destruct (H eq_refl) as (Ho & _ & _ & Hm). exact (conj Ho Hm).
  - destruct (@default_mode_failure fterm fterm_ops (list string) listed_fs
                Example.gpu_env Inputs.sol_default_args Example.example_weights []
                eq_refl eq_refl eq_refl eq_refl eq_refl eq_refl) as (_ & H).
    destruct (H eq_refl NetworkError eq_refl) as (Ho & _ & _ & Hm).
    exact (conj Ho Hm).
  - vm_compute. repeat split.
  - split; [|discriminate].
    destruct (@mesh_batch_row_values fterm fterm_ops 0 0 1) as (_ & _ & H);
      [lia|lia|lia|].
    exact H.
Qed.

Lemma default_mode_witness :
  exists sdf,
    net_call Example.gpu_env (net_of Example.base_args Example.example_weights) mesh_batch
    = Ok sdf /\
    saved_meshes (trace_of Example.gpu_env Example.base_args (@nil string))
    = ["./marched_gyroid.obj"%string].
Proof.
  destruct (gpu_env_evaluates "OctreeSDF" false Example.example_weights
              mesh_batch_shape mesh_batch_well_formed) as [sdf Hsdf].
  exists sdf. split; [exact Hsdf|].
  destruct (@default_mode_extracts_mesh fterm fterm_ops (list string) listed_fs
              Example.gpu_env Example.base_args Example.example_weights [] sdf
              eq_refl eq_refl eq_refl eq_refl eq_refl eq_refl eq_refl Hsdf)
    as (grid & _ & _ & _ & _ & _ & _ & _ & Hm & _).
  exact Hm.
Defined.

Lemma grid_mode_witness :
  saved_txts (trace_of Example.gpu_env Example.grid_args (@nil string)) = [] /\
  outcome_of Example.gpu_env Example.grid_args (@nil string) = Raised TypeError.
Proof.
  destruct (gpu_env_evaluates "OctreeSDF" false Example.example_weights
              csv_batch_shape csv_batch_well_formed) as [sdf Hsdf].
  destruct (@grid_mode_never_writes_csv fterm fterm_ops (list string) listed_fs
              Example.gpu_env Example.grid_args Example.example_weights []
              eq_refl eq_refl eq_refl eq_refl eq_refl)
    as (Htxt & _ & H).
  destruct (H eq_refl eq_refl sdf Hsdf) as (Ho & _).
  exact (conj Htxt Ho).
Defined.

(** C7 does not hold as stated: with --jit the network is scripted
    before its weights are loaded, and the name of
    weights/armadillo.v2.pth is armadillo, not armadillo.v2. *)
Lemma jit_scripts_before_loading :
  firstn 3 (trace_of Example.gpu_env Example.jit_args (@nil string))
  = [EConstructNet "OctreeSDF"; EJitScript "OctreeSDF";
     ELoadStateDict Example.example_weights] /\
  model_name Example.example_weights = "armadillo"%string /\
  stem_of_path Example.example_weights = "armadillo.v2"%string.
Proof. vm_compute. repeat split. Qed.

Lemma weights_witness :
  exists rest,
    trace_of Example.gpu_env Example.jit_args (@nil string)
    = [EConstructNet "OctreeSDF"] ++ [EJitScript "OctreeSDF"]
      ++ [ELoadStateDict Example.example_weights] ++ rest.
Proof.
  apply (proj1 (proj2 (@weights_loaded_after_construction fterm fterm_ops
                         (list string) listed_fs
                         Example.gpu_env Example.jit_args []))
               Example.example_weights eq_refl).
Defined.

(** C8 does not hold as stated: with --export and without weights
    nothing is saved and the run ends with the assertion error. *)
Lemma export_without_weights_saves_nothing :
  export Example.export_no_weights_args = Some "model.sol"%string /\
  sol_saves (trace_of Example.gpu_env Example.export_no_weights_args (@nil string)) = [] /\
  outcome_of Example.gpu_env Example.export_no_weights_args (@nil string)
  = Raised AssertionError.
Proof. vm_compute. repeat split. Qed.

Lemma export_witness :
  run Example.gpu_env Example.export_args ["_results"%string]
  = (setup_events Example.gpu_env Example.export_args Example.example_weights
     ++ [ESolSave (SOL_NGLOD (GyroidLattice (org_net_of Example.export_args Example.example_weights)))
                  "model.sol"],
     ["_results"%string], Exited 0).
Proof.
  destruct (@export_saves_and_exits fterm fterm_ops (list string) listed_fs
              Example.gpu_env Example.export_args
              "model.sol" ["_results"%string] eq_refl) as (_ & _ & _ & _ & _ & _ & _ & H).
  exact (H Example.example_weights eq_refl).
Defined.

(** C9 does not hold as stated: on a batch of shape (2,3), [forward]
    raises without CUDA and when the wrapped network raises; it returns
    a (2,2) tensor when the wrapped network answers with the shape (2,)
    of the docstring; and it raises a device mismatch when the wrapped
    network answers on the CPU. *)
Lemma forward_is_not_always_a_column :
  t_shape Example.two_points = [2; 3] /\
  forward false Example.zero_net Example.two_points = Raise CudaUnavailable /\
  forward true Inputs.failing_net Example.two_points = Raise NetworkError /\
  (exists t, forward true Example.flat_net Example.two_points = Ok t /\
             t_shape t = [2; 2] /\ t_shape t <> [2; 1]) /\
  forward true Inputs.cpu_net Example.two_points = Raise DeviceMismatch.
Proof.
  split; [reflexivity|]. split; [reflexivity|]. split; [reflexivity|].
  split; [|reflexivity].
  eexists. split; [reflexivity|]. split; [reflexivity|discriminate].
Qed.

Lemma forward_column_witness :
  exists t,
    forward true Example.zero_net Example.two_points = Ok t /\
    t_shape t = [2; 1] /\ t_shape t <> [2] /\ length (t_data t) = 2.
Proof.
  apply (@forward_returns_column fterm fterm_ops Example.zero_net
           Example.two_points
           {| t_shape := [2; 1];
              t_data := [Example.lit 0; Example.lit 0];
              t_device := Cuda 0 |} 2); reflexivity.
Defined.


(** ** Further facts about forward *)


Lemma device_eqb_neq (a b : device) : a <> b -> device_eqb a b = false.
Proof.
  destruct a as [|i], b as [|j]; simpl; trivial; intros H.
  - congruence.
  - apply Nat.eqb_neq. congruence.
Qed.

Lemma broadcast_column_flat (n : nat) : broadcast_shapes [n; 1] [n] = Some [n; n].
Proof.
  unfold broadcast_shapes. cbn [rev app broadcast_rev].
  destruct (Nat.eqb_spec 1 n) as [<-|Hn]; reflexivity.
Qed.

Lemma broadcast_columns_mismatch (n m : nat) :
  n <> m -> n <> 1 -> m <> 1 -> broadcast_shapes [n; 1] [m; 1] = None.
Proof.
  intros Hnm Hn Hm. unfold broadcast_shapes. cbn [rev app broadcast_rev].
  destruct (Nat.eqb_spec n m); [contradiction|].
  destruct (Nat.eqb_spec n 1); [contradiction|].
  destruct (Nat.eqb_spec m 1); [contradiction|]. reflexivity.
Qed.

Lemma src_index_column_in_square (n i j : nat) :
  i < n -> j < n -> src_index [n; 1] [n; n] (i * n + j) = i.
Proof.
  intros Hi Hj. unfold src_index. cbn [rev app src_index_rev Nat.eqb].
  rewrite Nat.div_add_l, (Nat.div_small j n), Nat.add_0_r by lia.
  destruct (Nat.eqb_spec n 1) as [->|Hn]; [lia|].
  rewrite Nat.mod_small by lia. lia.
Qed.

Lemma src_index_flat_in_square (n i j : nat) :
  i < n -> j < n -> src_index [n] [n; n] (i * n + j) = j.
Proof.
  intros Hi Hj. unfold src_index. cbn [rev app src_index_rev].
  destruct (Nat.eqb_spec n 1) as [->|Hn]; [lia|].
  replace (i * n + j) with (j + i * n) by lia.
  rewrite Nat.Div0.mod_add, Nat.mod_small by lia. lia.
Qed.

Section ForwardFacts.
Context {F : Type} {ops : FloatOps F}.
Local Abbreviation tensor := (@tensor F).

(** Column [k] of a well-formed batch of shape (n, m). *)
Lemma select_column_wide (x : tensor) (n m k : nat) :
  t_shape x = [n; m] -> well_formed x -> k < m ->
  select_column x k = Ok (tabulate [n] (t_device x) (fun i => entry_of m x i k)).
Proof.
  intros Hs Hwf Hk. unfold select_column, well_formed in *.
  rewrite Hs in *. cbn [numel fold_right] in Hwf.
  destruct (Nat.ltb_spec k m) as [_|]; [|lia].
  unfold tabulate. cbn [numel fold_right]. do 2 f_equal.
  rewrite Nat.mul_1_r.
  rewrite <- flat_map_singleton, !flat_map_concat_map. f_equal.
  apply map_ext_in. intros i Hi. apply in_seq in Hi.
  rewrite Nat.mul_1_r. unfold entry_of.
  apply firstn_1_skipn. nia.
Qed.

Lemma gyroid_field_wide (x : tensor) (n m : nat) :
  t_shape x = [n; m] -> 3 <= m -> well_formed x ->
  gyroid_field x =
  Ok (tabulate [n] (t_device x)
        (fun i => gyroid_value (entry_of m x i 0) (entry_of m x i 1)
                               (entry_of m x i 2))).
Proof.
  intros Hs Hm Hwf. unfold gyroid_field.
  rewrite !(select_column_wide Hs Hwf) by lia.
  unfold phase, torch_cos, torch_sin, scalar_mul, div_scalar, sub_scalar,
    tensor_mul, tensor_add.
  cbn [rbind].
  repeat (rewrite ?tmap_tabulate, ?binary_op_tabulate; cbn [rbind]).
  reflexivity.
Qed.

Lemma forward_wide_max (sdf_net : tensor -> result tensor) (x : tensor) (n m : nat) :
  t_shape x = [n; m] -> 3 <= m -> well_formed x ->
  forward true sdf_net x
  = rbind (sdf_net x) (fun s => torch_max (gyroid_column x n m) s).
Proof.
  intros Hs Hm Hwf. unfold forward.
  rewrite (gyroid_field_wide Hs Hm Hwf). cbn [rbind torch_tensor_cuda0].
  unfold gyroid_column, reshape_m1_1, tabulate.
  cbn [t_shape t_data t_device numel fold_right].
  now rewrite !Nat.mul_1_r, map_map.
Qed.

End ForwardFacts.

(** * Further properties of GyroidLattice.forward *)

Section ForwardProperties.
Context {F : Type} {ops : FloatOps F}.
Local Abbreviation tensor := (@tensor F).

(** X1: a wrapped network that answers with a flat vector of shape
    (N,), the shape the docstring of [forward] announces, makes [forward]
    return an (N, N) tensor: [torch.max] broadcasts the gyroid column
    (N, 1) against (N,), and entry (i, j) is the maximum of the gyroid
    value of row i and the network's value of row j. *)
Theorem forward_flat_output_gives_square
        (sdf_net : tensor -> result tensor) (x s : tensor) (n : nat) :
  t_shape x = [n; 3] -> well_formed x ->
  sdf_net x = Ok s -> t_shape s = [n] -> t_device s = Cuda 0 ->
  exists t,
    forward true sdf_net x = Ok t /\
    t_shape t = [n; n] /\
    length (t_data t) = n * n /\
    forall i j, i < n -> j < n ->
      nth (i * n + j) (t_data t) fdefault
      = fmax (to_float32 (gyroid_value (entry x i 0) (entry x i 1) (entry x i 2)))
             (nth j (t_data s) fdefault).
Proof.
  intros Hs Hwf Hnet Hss Hsd.
  rewrite (forward_wide_max sdf_net Hs (le_n 3) Hwf), Hnet. cbn [rbind].
  unfold torch_max, binary_op, gyroid_column, tabulate.
  cbn [t_shape t_data t_device numel fold_right].
  rewrite Hsd, Hss, broadcast_column_flat. cbn [device_eqb Nat.eqb].
  eexists. split; [reflexivity|]. cbn [t_shape t_data numel fold_right].
  split; [reflexivity|]. split.
  - rewrite length_map, length_seq. lia.
  - intros i j Hi Hj.
    rewrite nth_map_seq by nia.
    rewrite src_index_column_in_square, src_index_flat_in_square by assumption.
    rewrite nth_map_seq by lia. reflexivity.
Qed.

(** X2: a wrapped network that answers a batch of N rows with a column of
    another number M of rows makes [forward] fail in [torch.max]: the
    shapes (N, 1) and (M, 1) do not broadcast unless one of N and M
    is 1. *)
Theorem forward_row_count_mismatch
        (sdf_net : tensor -> result tensor) (x s : tensor) (n m : nat) :
  t_shape x = [n; 3] -> well_formed x ->
  sdf_net x = Ok s -> t_shape s = [m; 1] -> t_device s = Cuda 0 ->
  n <> m -> n <> 1 -> m <> 1 ->
  forward true sdf_net x = Raise BroadcastError.
Proof.
  intros Hs Hwf Hnet Hss Hsd Hnm Hn Hm.
  rewrite (forward_wide_max sdf_net Hs (le_n 3) Hwf), Hnet. cbn [rbind].
  unfold torch_max, binary_op, gyroid_column, tabulate.
  cbn [t_shape t_data t_device].
  rewrite Hsd, Hss, broadcast_columns_mismatch by assumption. reflexivity.
Qed.

(** X3: [forward] puts its gyroid column on cuda:0 whatever the device of
    the wrapped network: a network that answers on another device
    (the CPU, a second GPU) makes [torch.max] fail, CUDA being
    there. *)
Theorem forward_network_on_other_device
        (sdf_net : tensor -> result tensor) (x s : tensor) (n : nat) :
  t_shape x = [n; 3] -> well_formed x ->
  sdf_net x = Ok s -> t_shape s = [n; 1] -> t_device s <> Cuda 0 ->
  forward true sdf_net x = Raise DeviceMismatch.
Proof.
  intros Hs Hwf Hnet Hss Hsd.
  rewrite (forward_wide_max sdf_net Hs (le_n 3) Hwf), Hnet. cbn [rbind].
  unfold torch_max, binary_op, gyroid_column, tabulate. cbn [t_device].
  rewrite device_eqb_neq by congruence. reflexivity.
Qed.

(** X4: an input without three columns (fewer than two dimensions, or a
    second dimension shorter than three) makes [forward] fail with
    IndexError at the column reads of lines 71-73, before the wrapped
    network is called and whether or not CUDA is there. *)
Theorem forward_needs_three_columns
        (cuda : bool) (sdf_net : tensor -> result tensor) (x : tensor) :
  has_three_columns x = false ->
  forward cuda sdf_net x = Raise IndexError.
Proof.
  unfold has_three_columns, forward, gyroid_field, select_column.
  destruct (t_shape x) as [|n [|m rest]] eqn:Hs; trivial.
  intros Hm. apply Nat.leb_gt in Hm.
  destruct m as [|[|[|m]]]; try lia; cbn [Nat.ltb Nat.leb rbind]; trivial.
  unfold tensor_mul. rewrite binary_op_same_shape by reflexivity.
  reflexivity.
Qed.

(** X5: on a batch with more than three columns [forward] reads the first
    three coordinates of every row for the gyroid term and ignores the
    others; the wrapped network still gets the whole batch. *)
Theorem forward_reads_first_three_columns
        (sdf_net : tensor -> result tensor) (x s : tensor) (n m : nat) :
  t_shape x = [n; m] -> 3 <= m -> well_formed x ->
  sdf_net x = Ok s -> t_shape s = [n; 1] -> t_device s = Cuda 0 ->
  forward true sdf_net x
  = Ok (tabulate [n; 1] (Cuda 0)
          (fun i => fmax (to_float32 (gyroid_value (entry_of m x i 0)
                                                   (entry_of m x i 1)
                                                   (entry_of m x i 2)))
                         (nth i (t_data s) fdefault))).
Proof.
  intros Hs Hm Hwf Hnet Hss Hsd.
  rewrite (forward_wide_max sdf_net Hs Hm Hwf), Hnet. cbn [rbind].
  unfold torch_max. rewrite binary_op_same_shape.
  - unfold gyroid_column, tabulate. cbn [t_shape t_data t_device]. do 2 f_equal.
    apply map_ext_in. intros i Hi. apply in_seq in Hi.
    cbn [numel fold_right] in Hi.
    rewrite nth_map_seq by (cbn [numel fold_right]; lia). reflexivity.
  - now rewrite Hsd.
  - now rewrite Hss.
Qed.

End ForwardProperties.

(** * Further properties of the name and the numbering *)

(** X6: the model name of an ordinary weights path: for a file name
    base.ext whose base contains neither '/' nor '.', the name is the
    base, whatever the directory part (dots in it do not count) and
    whatever follows the first dot of the file name. *)
Theorem model_name_of_file (dir base ext : string) :
  contains_char "/" base = false -> contains_char "." base = false ->
  contains_char "/" ext = false ->
  model_name (dir ++ "/" ++ base ++ "." ++ ext) = base /\
  model_name (base ++ "." ++ ext) = base /\
  model_name (dir ++ "/" ++ base) = base /\
  model_name base = base.
Proof.
  intros Hb Hd He.
  assert (Hc : contains_char "/" (base ++ "." ++ ext) = false).
  { rewrite contains_char_app, Hb. cbn. now rewrite He. }
  unfold model_name. cbn [append].
  rewrite !last_component_after_dir by assumption.
  rewrite !(split_on_without_sep "/") by assumption. cbn [last].
  rewrite head_before_dot by assumption.
  now rewrite split_on_without_sep by assumption.
Qed.

(** X7: the model name is empty exactly when the final component of the
    path is empty (the path is empty or ends in '/') or starts with a
    dot (a hidden file); the instance directory is then the image
    directory itself when that is empty or ends in '/', and the image
    directory with '/' appended otherwise. *)
Theorem model_name_empty_iff (dir comp : string) :
  contains_char "/" comp = false ->
  (model_name (dir ++ "/" ++ comp) = EmptyString
   <-> comp = EmptyString \/ exists r, comp = String "." r) /\
  (model_name comp = EmptyString
   <-> comp = EmptyString \/ exists r, comp = String "." r) /\
  (forall img : string,
      img = EmptyString \/ ends_with_slash img = true ->
      os_path_join img EmptyString = img) /\
  (forall img : string,
      img <> EmptyString -> ends_with_slash img = false ->
      os_path_join img EmptyString = (img ++ "/")%string).
Proof.
  intros Hc. unfold model_name. cbn [append].
  rewrite last_component_after_dir by assumption.
  rewrite (split_on_without_sep "/") by assumption. cbn [last].
  split; [apply head_piece_empty|]. split; [apply head_piece_empty|].
  split.
  - intros img H. unfold os_path_join. cbn [starts_with_slash].
    destruct H as [->|H]; [reflexivity|].
    rewrite H, orb_true_r. apply append_empty_r.
  - intros img Hne He. unfold os_path_join. cbn [starts_with_slash].
    rewrite He. apply String.eqb_neq in Hne. now rewrite Hne.
Qed.

(** X8: '{:06d}' pads with zeros to six characters and never truncates:
    the text has at least six characters, reading it back gives the
    number, and two numbers never share a text. *)
Theorem format_06d_round_trip (n m : Z) :
  6 <= String.length (format_06d n) /\
  ((0 <= n)%Z -> int_of_digits (format_06d n) = Some n) /\
  (format_06d n = format_06d m -> n = m).
Proof.
  split; [apply length_format_06d|].
  split; [apply int_of_format_06d|apply format_06d_inj].
Qed.

(** * Further properties of the script *)

Section ScriptProperties.
Context {F : Type} {ops : FloatOps F}.
Context {FS : Type} {fsys : FileSystem FS}.
Local Abbreviation tensor := (@tensor F).
Local Abbreviation Args := (@Args F).
Local Abbreviation Env := (@Env F).
Local Abbreviation event := (@event F).

(** The images of a run that stops at the directories: none. *)
Lemma no_images_when_stopped (env : Env) (args : Args) (weights : string)
      (dirs : list string) :
  let tr := setup_events env args weights ++ lod_events args weights
            ++ map (@EMakedirs F) dirs in
  shade_calls tr = [] /\ saved_pngs tr = [] /\ written_exrs tr = [].
Proof.
  cbv zeta. unfold shade_calls, saved_pngs, written_exrs.
  rewrite !(stopped_projection _ env args weights dirs) by reflexivity.
  split; [apply shade_calls_prelude|].
  split; [apply saved_pngs_prelude|apply written_exrs_prelude].
Qed.


(** X10: no run writes an image file twice: the PNG paths of a run are
    pairwise distinct and so are its EXR paths, for any number of
    poses (the six-digit numbering pads and never truncates). *)
Theorem image_files_are_distinct (env : Env) (args : Args) (fs : FS) :
  NoDup (png_paths (trace_of env args fs)) /\
  NoDup (exr_paths (trace_of env args fs)).
Proof.
  unfold trace_of.
  destruct (pretrained args) as [w|] eqn:Hp.
  - destruct (export args) as [path|] eqn:Hex.
    + rewrite (run_export env args fs Hp Hex). cbn [fst].
      destruct (projections_of_export env args w path) as (_ & Hpng & Hexr & _).
      unfold png_paths, exr_paths. cbv zeta in Hpng, Hexr.
      rewrite Hpng, Hexr. split; constructor.
    + destruct (run_cases env args fs Hp Hex) as [[_ E]|[_ [e E]]];
        rewrite E; cbn [fst]; unfold png_paths, exr_paths.
      * rewrite saved_pngs_run, written_exrs_run.
        unfold run_mode. destruct (mode_by_priority args).
        -- rewrite run_r360_run, np_arange_spin. cbn [fst].
           rewrite written_exrs_spin. split; [|constructor].
           fold (png_paths (flat_map (spin_events args (ins_dir_of args w))
                                     spin_angles)).
           rewrite png_paths_spin.
           apply NoDup_map_inj; [|apply NoDup_spin_angles].
           intros x y _ _ E'.
           apply append_inj_l, append_inj_l, append_inj_r, format_06d_inj in E'.
           lia.
        -- rewrite run_rsphere_run. cbn [fst]. split.
           ++ fold (png_paths (flat_map (sphere_events args (ins_dir_of args w))
                                 (enumerate (sample_fib_sphere env (nb_poses args))))).
              rewrite png_paths_sphere.
              rewrite <- (map_map fst
                            (fun n => (ins_dir_of args w ++ "/normal/"
                                       ++ format_06d n ++ ".png")%string)).
              apply NoDup_map_inj; [|apply NoDup_enumerate_numbers].
              intros x y _ _ E'.
              now apply append_inj_l, append_inj_l, append_inj_r,
                format_06d_inj in E'.
           ++ rewrite written_exrs_sphere. destruct (exr args); [|constructor].
              rewrite map_map. cbn [fst].
              rewrite <- (map_map fst
                            (fun n => (ins_dir_of args w ++ "/exr/"
                                       ++ format_06d n ++ ".exr")%string)).
              apply NoDup_map_inj; [|apply NoDup_enumerate_numbers].
              intros x y _ _ E'.
              now apply append_inj_l, append_inj_l, append_inj_r,
                format_06d_inj in E'.
        -- destruct (no_images_of_evaluation
                       (run_sdf_grid_events env (net_of args w)
                          (dirs_state args w fs)))
             as (_ & -> & ->).
           split; constructor.
        -- destruct (no_images_of_evaluation
                       (run_marching_cubes_events env (net_of args w)
                          (dirs_state args w fs)))
             as (_ & -> & ->).
           split; constructor.
      * destruct (no_images_when_stopped env args w (dirs_made args w fs))
          as (_ & -> & ->).
        split; constructor.
  - rewrite (run_without_weights env args fs Hp). split; constructor.
Qed.

(** X11: on a run with weights and without --export whose
    [os.makedirs] calls all return, whatever the mode and whether or
    not the mode fails afterwards: the instance directory is not the
    empty path; it and its normal, rgb and exr subdirectories all
    exist when the run is over; nothing that existed is lost; and
    [os.makedirs] was handed only paths among these four that did not
    exist when the run started, each at most once. *)
Theorem output_directories_are_created
        (env : Env) (args : Args) (weights : string) (fs : FS) :
  pretrained args = Some weights -> export args = None ->
  output_dirs_made args weights fs ->
  let tr := trace_of env args fs in
  let after := dirs_after env args fs in
  let ins_dir := os_path_join (img_dir args) (model_name weights) in
  ins_dir <> EmptyString /\
  path_exists after ins_dir = true /\
  path_exists after (os_path_join ins_dir "normal") = true /\
  path_exists after (os_path_join ins_dir "rgb") = true /\
  path_exists after (os_path_join ins_dir "exr") = true /\
  (forall p, path_exists fs p = true -> path_exists after p = true) /\
  (forall p, In p (made_dirs tr) ->
             In p [ins_dir; os_path_join ins_dir "normal";
                   os_path_join ins_dir "rgb"; os_path_join ins_dir "exr"] /\
             path_exists fs p = false) /\
  NoDup (made_dirs tr).
Proof.
  intros Hp Hex Hd tr after ins_dir. subst tr after.
  rewrite (made_dirs_run env args fs Hp Hex), (dirs_after_run env args fs Hp Hex).
  destruct (output_dirs_run args weights fs) as (Hm & Hn & Hk & _ & Hv & _).
  specialize (Hv Hd). unfold output_dirs in Hv, Hm. cbn [map] in Hv, Hm.
  fold (ins_dir_of args weights) in ins_dir. subst ins_dir.
  split; [exact (output_dirs_made_nonempty Hd)|].
  split; [apply Hv; cbn; auto|]. split; [apply Hv; cbn; auto|].
  split; [apply Hv; cbn; auto|]. split; [apply Hv; cbn; auto|].
  split; [exact Hk|]. split; [exact Hm|exact Hn].
Qed.


(** X13: a run leaves through [sys.exit] only on the export path, with
    status 0: the [exit(1)] of line 223 is never reached, since the
    [np.hstack] call before it always raises. *)
Theorem exit_only_after_export
        (env : Env) (args : Args) (fs : FS) (status : Z) :
  outcome_of env args fs = Exited status ->
  status = 0%Z /\
  exists weights path, pretrained args = Some weights /\ export args = Some path.
Proof.
  unfold outcome_of.
  destruct (pretrained args) as [w|] eqn:Hp.
  - destruct (export args) as [path|] eqn:Hex.
    + rewrite (run_export env args fs Hp Hex). cbn [snd].
      intros [= <-]. split; [reflexivity|]. now exists w, path.
    + destruct (run_cases env args fs Hp Hex) as [[_ E]|[_ [e E]]];
        rewrite E; cbn [snd].
      * intros H. now apply run_mode_never_exits in H.
      * discriminate.
  - rewrite (run_without_weights env args fs Hp). discriminate.
Qed.

(** X14: without --r360 and --rsphere nothing is rendered: the grid mode
    and the default mode call [shade_images] not once and write no
    PNG and no EXR file, although the renderer is constructed for the
    network on every such run that has weights and no --export and
    gets its output directories made. *)
Theorem evaluation_modes_render_nothing
        (env : Env) (args : Args) (fs : FS) :
  r360 args = false -> rsphere args = false ->
  let tr := trace_of env args fs in
  shade_calls tr = [] /\ saved_pngs tr = [] /\ written_exrs tr = [] /\
  (forall weights,
      pretrained args = Some weights -> export args = None ->
      output_dirs_made args weights fs ->
      renderers tr = [(net_of args weights, picked_device env)]).
Proof.
  intros Hr Hs tr. subst tr. unfold trace_of.
  destruct (pretrained args) as [w|] eqn:Hp.
  - destruct (export args) as [path|] eqn:Hex.
    + rewrite (run_export env args fs Hp Hex). cbn [fst].
      destruct (projections_of_export env args w path) as (H1 & H2 & H3 & _).
      split; [exact H1|]. split; [exact H2|]. split; [exact H3|]. discriminate.
    + destruct (run_cases env args fs Hp Hex) as [[Hd E]|[Hd [e E]]];
        rewrite E; cbn [fst].
      * rewrite shade_calls_run, saved_pngs_run, written_exrs_run.
        assert (He : Forall evaluation_event
                            (fst (fst (run_mode env args w (dirs_state args w fs))))).
        { unfold run_mode, mode_by_priority. rewrite Hr, Hs.
          destruct (sdf_grid args);
            [apply run_sdf_grid_events|apply run_marching_cubes_events]. }
        destruct (no_images_of_evaluation He) as (H1 & H2 & H3).
        split; [exact H1|]. split; [exact H2|]. split; [exact H3|].
        intros w' [= <-] _ _. unfold renderers.
        rewrite projection_of_prelude.
        -- apply renderers_prelude.
        -- now intros [].
        -- reflexivity.
        -- apply run_mode_events.
      * destruct (no_images_when_stopped env args w (dirs_made args w fs))
          as (H1 & H2 & H3).
        split; [exact H1|]. split; [exact H2|]. split; [exact H3|].
        intros w' [= <-] _ Hd'. contradiction.
  - rewrite (run_without_weights env args fs Hp). cbn [fst].
    repeat split; discriminate.
Qed.

(** X15: --exr has an effect in the sphere mode only: a run that writes an
    EXR file was given --exr and --rsphere, no --r360 and no
    --export, and weights.  In the spinning mode the EXR writing is
    commented out, and the other modes render nothing. *)
Theorem exr_files_need_sphere_mode (env : Env) (args : Args) (fs : FS) :
  written_exrs (trace_of env args fs) <> [] ->
  exr args = true /\ rsphere args = true /\ r360 args = false /\
  export args = None /\ pretrained args <> None.
Proof.
  unfold trace_of.
  destruct (pretrained args) as [w|] eqn:Hp.
  - destruct (export args) as [path|] eqn:Hex.
    + rewrite (run_export env args fs Hp Hex). cbn [fst].
      destruct (projections_of_export env args w path) as (_ & _ & -> & _).
      intros H; exfalso; now apply H.
    + destruct (run_cases env args fs Hp Hex) as [[_ E]|[_ [e E]]];
        rewrite E; cbn [fst].
      * rewrite written_exrs_run. unfold run_mode.
        pose proof (mode_by_priority_flags args) as Hm.
        destruct (mode_by_priority args).
        -- rewrite run_r360_run. cbn [fst]. rewrite written_exrs_spin.
           intros H; exfalso; now apply H.
        -- rewrite run_rsphere_run. cbn [fst]. rewrite written_exrs_sphere.
           destruct (exr args); [|intros H; exfalso; now apply H].
           intros _. destruct Hm as [Hr Hs]. repeat split; trivial. discriminate.
        -- destruct (no_images_of_evaluation
                       (run_sdf_grid_events env (net_of args w)
                          (dirs_state args w fs)))
             as (_ & _ & ->).
           intros H; exfalso; now apply H.
        -- destruct (no_images_of_evaluation
                       (run_marching_cubes_events env (net_of args w)
                          (dirs_state args w fs)))
             as (_ & _ & ->).
           intros H; exfalso; now apply H.
      * destruct (no_images_when_stopped env args w (dirs_made args w fs))
          as (_ & _ & ->).
        intros H; exfalso; now apply H.
  - rewrite (run_without_weights env args fs Hp). cbn [fst].
    intros H; exfalso; now apply H.
Qed.

(** X16: --lod is stored once, as the attribute [lod] of the object bound
    to [net] at line 147: the gyroid wrapper, or its SOL_NGLOD wrapper
    under --sol, and never the loaded network inside.  On an export
    run and on a run without weights it is not stored at all. *)
Theorem lod_is_set_on_the_outer_wrapper
        (env : Env) (args : Args) (fs : FS) :
  let tr := trace_of env args fs in
  set_lods tr
  = match pretrained args, export args, lod args with
    | Some weights, None, Some l => [(net_of args weights, l)]
    | _, _, _ => []
    end /\
  forall m l, In (m, l) (set_lods tr) ->
              exists inner, m = GyroidLattice inner \/ m = SOL_NGLOD inner.
Proof.
  intros tr.
  assert (E : set_lods tr
              = match pretrained args, export args, lod args with
                | Some weights, None, Some l => [(net_of args weights, l)]
                | _, _, _ => []
                end).
  { subst tr.
    destruct (pretrained args) as [w|] eqn:Hp.
    - destruct (export args) as [path|] eqn:Hex.
      + unfold trace_of. rewrite (run_export env args fs Hp Hex). cbn [fst].
        now destruct (projections_of_export env args w path) as (_ & _ & _ & _ & ->).
      + unfold set_lods at 1.
        rewrite (projection_of_run _ env args fs Hp Hex);
          [|now intros []|reflexivity|reflexivity].
        rewrite stopped_projection by reflexivity.
        apply set_lods_prelude.
    - unfold trace_of. now rewrite (run_without_weights env args fs Hp). }
  split; [exact E|].
  intros m l. rewrite E.
  destruct (pretrained args) as [w|]; [|intros []].
  destruct (export args); [intros []|].
  destruct (lod args); [|intros []].
  intros [[= <- _]|[]]. unfold net_of. destruct (sol args); eauto.
Qed.

(** X17: when the default mode, on a run that gets its output
    directories made, cannot evaluate the network (no CUDA for the
    grid tensor of line 244, or the network raises), the run ends with
    that exception: nothing is handed to the cube marcher and no mesh
    file is written, while the four output directories, made before
    the mode starts, exist afterwards. *)
Theorem failed_evaluation_saves_no_mesh
        (env : Env) (args : Args) (weights : string) (fs : FS) :
  pretrained args = Some weights -> export args = None ->
  r360 args = false -> rsphere args = false -> sdf_grid args = false ->
  output_dirs_made args weights fs ->
  let tr := trace_of env args fs in
  (cuda_available env = false ->
   outcome_of env args fs = Raised CudaUnavailable /\
   net_calls tr = [] /\ marches tr = [] /\ saved_meshes tr = []) /\
  (cuda_available env = true ->
   forall e, net_call env (net_of args weights) mesh_batch = Raise e ->
     outcome_of env args fs = Raised e /\
     net_calls tr = [(net_of args weights, mesh_batch, true)] /\
     marches tr = [] /\ saved_meshes tr = []) /\
  (forall p, In p (output_dirs args weights) ->
             path_exists (dirs_after env args fs) p = true).
Proof.
  intros Hp Hex Hr Hs Hg Hd tr.
  destruct (default_mode_failure env Hp Hex Hr Hs Hg Hd) as (H1 & H2).
  split; [exact H1|]. split; [exact H2|].
  intros p H. rewrite (dirs_after_run env args fs Hp Hex).
  now apply (output_dirs_run args weights fs).
Qed.

(** X18: the rows of the two grids are ordered with z varying
    fastest, then y, then x: row (i * 150 + j) * 150 + k of the batch
    handed to the network holds sample i of the x axis, sample j of
    the y axis and sample k of the z axis, as float32 in the default
    mode and as computed in the grid mode. *)
Theorem grid_rows_vary_z_fastest (i j k : nat) :
  i < 150 -> j < 150 -> k < 150 ->
  let r := (i * 150 + j) * 150 + k in
  (entry mesh_batch r 0 = to_float32 (axis_sample (-1)%Q 1%Q i) /\
   entry mesh_batch r 1 = to_float32 (axis_sample (-0.3)%Q 0.5%Q j) /\
   entry mesh_batch r 2 = to_float32 (axis_sample (-0.3)%Q 0.8%Q k)) /\
  (entry csv_batch r 0 = axis_sample (-1.1)%Q 1.1%Q i /\
   entry csv_batch r 1 = axis_sample (-1.1)%Q 1.1%Q j /\
   entry csv_batch r 2 = axis_sample (-1.1)%Q 1.1%Q k).
Proof.
  intros Hi Hj Hk r. split.
  - exact (mesh_batch_rows Hi Hj Hk).
  - exact (csv_batch_rows Hi Hj Hk).
Qed.

(** X19: what the default mode hands to the cube marcher, on a run
    that gets its output directories made.  Without --sol, with CUDA
    there and the loaded network answering the grid batch with one
    column on cuda:0, the value at grid point (i, j, k) is the
    maximum of the network's value there and of the gyroid implicit
    value at the float32 coordinates of the point, itself stored as
    float32. *)
Theorem mesh_is_extracted_from_gyroid_max
        (env : Env) (args : Args) (weights : string) (fs : FS)
        (s : tensor) :
  pretrained args = Some weights -> export args = None ->
  r360 args = false -> rsphere args = false -> sdf_grid args = false ->
  output_dirs_made args weights fs ->
  sol args = false -> cuda_available env = true ->
  org_forward env mesh_batch = Ok s ->
  t_shape s = [150 * 150 * 150; 1] -> t_device s = Cuda 0 ->
  exists sdf,
    marches (trace_of env args fs) = [(to_numpy mesh_batch, to_numpy sdf)] /\
    saved_meshes (trace_of env args fs) = ["./marched_gyroid.obj"%string] /\
    t_shape sdf = [150 * 150 * 150; 1] /\
    forall i j k, i < 150 -> j < 150 -> k < 150 ->
      let r := (i * 150 + j) * 150 + k in
      nth r (t_data sdf) fdefault
      = fmax (to_float32
                (gyroid_value (to_float32 (axis_sample (-1)%Q 1%Q i))
                              (to_float32 (axis_sample (-0.3)%Q 0.5%Q j))
                              (to_float32 (axis_sample (-0.3)%Q 0.8%Q k))))
             (nth r (t_data s) fdefault).
Proof.
  intros Hp Hex Hr Hs Hg Hd Hsol Hc Hnet Hss Hsd.
  assert (Hcall : net_call env (net_of args weights) mesh_batch
                  = Ok (tabulate [150 * 150 * 150; 1] (Cuda 0)
                          (fun r => fmax (to_float32
                                            (gyroid_value (entry mesh_batch r 0)
                                                          (entry mesh_batch r 1)
                                                          (entry mesh_batch r 2)))
                                         (nth r (t_data s) fdefault)))).
  { unfold net_of, org_net_of. rewrite Hsol. cbn [net_call]. rewrite Hc.
    exact (forward_batch (org_forward env) mesh_batch_shape
                         mesh_batch_well_formed Hnet Hss Hsd). }
  eexists. unfold trace_of.
  rewrite (run_default_mode env Hp Hex Hr Hs Hg Hd).
  rewrite run_marching_cubes_run, Hc, Hcall. cbn [fst].
  rewrite marches_run, saved_meshes_run.
  split; [reflexivity|]. split; [reflexivity|]. split; [reflexivity|].
  intros i j k Hi Hj Hk.
  destruct (mesh_batch_rows (F:=F) Hi Hj Hk) as (H0 & H1 & H2).
  cbv zeta in H0, H1, H2. rewrite <- H0, <- H1, <- H2.
  unfold tabulate. cbn [t_data numel fold_right].
  now rewrite nth_map_seq by lia.
Qed.

End ScriptProperties.


(** * The further properties on concrete inputs *)

Lemma flat_output_witness :
  exists t, forward true Example.flat_net Example.two_points = Ok t /\
            t_shape t = [2; 2] /\ length (t_data t) = 2 * 2.
Proof.
  destruct (@forward_flat_output_gives_square fterm fterm_ops Example.flat_net
              Example.two_points
              {| t_shape := [2];
                 t_data := [Example.lit 0; Example.lit 0];
                 t_device := Cuda 0 |} 2
              eq_refl eq_refl eq_refl eq_refl eq_refl) as (t & H1 & H2 & H3 & _).
  exists t. exact (conj H1 (conj H2 H3)).
Defined.

Lemma row_mismatch_witness :
  forward true Inputs.three_rows_net Example.two_points = Raise BroadcastError.
Proof.
  apply (@forward_row_count_mismatch fterm fterm_ops Inputs.three_rows_net
           Example.two_points
           {| t_shape := [3; 1];
              t_data := [Example.lit 0; Example.lit 0; Example.lit 0];
              t_device := Cuda 0 |} 2 3); try reflexivity; lia.
Defined.

Lemma other_device_witness :
  forward true Inputs.cpu_net Example.two_points = Raise DeviceMismatch.
Proof.
  apply (@forward_network_on_other_device fterm fterm_ops Inputs.cpu_net
           Example.two_points
           {| t_shape := [2; 1];
              t_data := [Example.lit 0; Example.lit 0];
              t_device := Cpu |} 2); try reflexivity.
  discriminate.
Defined.

Lemma narrow_input_witness :
  forward true Example.zero_net Inputs.two_columns = Raise IndexError.
Proof.
  apply (@forward_needs_three_columns fterm fterm_ops true Example.zero_net
           Inputs.two_columns).
  reflexivity.
Defined.

Lemma wide_input_witness :
  forward true Example.zero_net Inputs.four_columns
  = Ok (tabulate [1; 1] (Cuda 0)
          (fun i => fmax (to_float32 (gyroid_value (entry_of 4 Inputs.four_columns i 0)
                                                   (entry_of 4 Inputs.four_columns i 1)
                                                   (entry_of 4 Inputs.four_columns i 2)))
                         (nth i [Example.lit 0] fdefault))).
Proof.
  apply (@forward_reads_first_three_columns fterm fterm_ops Example.zero_net
           Inputs.four_columns
           {| t_shape := [1; 1]; t_data := [Example.lit 0]; t_device := Cuda 0 |}
           1 4); try reflexivity.
  lia.
Defined.

Lemma model_name_witness :
  model_name ("weights/v1.2" ++ "/" ++ "armadillo" ++ "." ++ "v2.pth") = "armadillo"%string.
Proof.
  apply (proj1 (@model_name_of_file "weights/v1.2" "armadillo" "v2.pth"
                  eq_refl eq_refl eq_refl)).
Defined.

Lemma hidden_file_witness :
  model_name ("weights" ++ "/" ++ ".pth") = EmptyString.
Proof.
  apply (proj1 (@model_name_empty_iff "weights" ".pth" eq_refl)).
  right. now exists "pth"%string.
Defined.


Lemma grid_rows_witness :
  entry (F:=fterm) mesh_batch ((1 * 150 + 2) * 150 + 3) 2
  = to_float32 (axis_sample (-0.3)%Q 0.8%Q 3).
Proof.
  destruct (@grid_rows_vary_z_fastest fterm fterm_ops 1 2 3) as ((_ & _ & H) & _);
    [lia|lia|lia|].
  exact H.
Defined.

Lemma example_ins_dir_nonempty :
  ins_dir_of Example.spin_args Example.example_weights <> EmptyString.
Proof. vm_compute. discriminate. Qed.

Lemma directories_witness :
  listed_exists (dirs_after Example.gpu_env Example.spin_args (@nil string))
                "_results/render_app/imgs/armadillo/rgb" = true /\
  NoDup (made_dirs (trace_of Example.gpu_env Example.spin_args (@nil string))).
Proof.
  destruct (@output_directories_are_created fterm fterm_ops (list string) listed_fs
              Example.gpu_env Example.spin_args Example.example_weights []
              eq_refl eq_refl eq_refl)
    as (_ & _ & _ & H & _ & _ & _ & Hn).
  exact (conj H Hn).
Defined.


Lemma exit_witness :
  0%Z = 0%Z /\
  exists weights path,
    pretrained Example.export_args = Some weights /\
    export Example.export_args = Some path.
Proof.
  apply (@exit_only_after_export fterm fterm_ops (list string) listed_fs
           Example.gpu_env Example.export_args [] 0).
  reflexivity.
Defined.

Lemma nothing_rendered_witness :
  shade_calls (trace_of Example.gpu_env Example.grid_args (@nil string)) = [] /\
  saved_pngs (trace_of Example.gpu_env Example.grid_args (@nil string)) = [] /\
  renderers (trace_of Example.gpu_env Example.grid_args (@nil string))
  = [(GyroidLattice (OrgNet "OctreeSDF" false Example.example_weights), Cuda 0)].
Proof.
  destruct (@evaluation_modes_render_nothing fterm fterm_ops (list string) listed_fs
              Example.gpu_env Example.grid_args [] eq_refl eq_refl)
    as (H1 & H2 & _ & H4).
  exact (conj H1 (conj H2 (H4 Example.example_weights eq_refl eq_refl eq_refl))).
Defined.

Lemma sphere_run_writes_exr :
  written_exrs (trace_of Example.gpu_env Example.sphere_args (@nil string)) <> [].
Proof. vm_compute. discriminate. Qed.

Lemma exr_witness :
  exr Example.sphere_args = true /\ rsphere Example.sphere_args = true /\
  r360 Example.sphere_args = false.
Proof.
  destruct (@exr_files_need_sphere_mode fterm fterm_ops (list string) listed_fs
              Example.gpu_env Example.sphere_args [] sphere_run_writes_exr)
    as (H1 & H2 & H3 & _).
  exact (conj H1 (conj H2 H3)).
Defined.

Lemma failed_evaluation_witness :
  outcome_of Example.gpu_env Inputs.sol_default_args (@nil string)
  = Raised NetworkError /\
  saved_meshes (trace_of Example.gpu_env Inputs.sol_default_args (@nil string)) = [].
Proof.
  destruct (@failed_evaluation_saves_no_mesh fterm fterm_ops (list string) listed_fs
              Example.gpu_env Inputs.sol_default_args Example.example_weights []
              eq_refl eq_refl eq_refl eq_refl eq_refl eq_refl) as (_ & H & _).
  destruct (H eq_refl NetworkError eq_refl) as (Ho & _ & _ & Hm).
  exact (conj Ho Hm).
Defined.

Lemma zero_net_on_mesh_batch :
  t_shape {| t_shape := [hd 0 (t_shape (mesh_batch (F:=fterm))); 1];
             t_data := map (fun _ => Example.lit 0)
                           (seq 0 (hd 0 (t_shape (mesh_batch (F:=fterm)))));
             t_device := Cuda 0 |}
  = [150 * 150 * 150; 1].
Proof. cbn [t_shape]. now rewrite mesh_batch_shape. Qed.

Lemma mesh_witness :
  exists sdf,
    marches (trace_of Example.gpu_env Example.base_args (@nil string))
    = [(to_numpy mesh_batch, to_numpy sdf)] /\
    t_shape sdf = [150 * 150 * 150; 1].
Proof.
  destruct (@mesh_is_extracted_from_gyroid_max fterm fterm_ops (list string) listed_fs
              Example.gpu_env Example.base_args Example.example_weights []
              {| t_shape := [hd 0 (t_shape (mesh_batch (F:=fterm))); 1];
                 t_data := map (fun _ => Example.lit 0)
                               (seq 0 (hd 0 (t_shape (mesh_batch (F:=fterm)))));
                 t_device := Cuda 0 |}
              eq_refl eq_refl eq_refl eq_refl eq_refl eq_refl eq_refl eq_refl eq_refl
              zero_net_on_mesh_batch eq_refl) as (sdf & H1 & _ & H2 & _).
  exists sdf. exact (conj H1 H2).
Defined.
